(** * Package wit: package names, primitive types, type definitions and the
      wasm-tools adapter (resolve.go, load.go), embedded in Rocq.

    Go strings are byte sequences and are modelled by [string]; a Go [error]
    is a value of [error], with [None : option error] for the nil error; a
    function with several results returns a tuple, as the Go code does. *)

From Stdlib Require Import String Ascii List Bool Arith ZArith NArith Lia.
From Stdlib Require Import DecimalString DecimalPos DecimalN.
Import ListNotations.

Local Open Scope string_scope.

(** ** Errors *)

(** The error values this package makes or passes on. *)
Inductive error : Type :=
| errors_New (text : string)                    (* errors.New(text) *)
| fmt_Errorf (format : string) (a : string)     (* fmt.Errorf(format, a) *)
| imported_error (pkg : string) (text : string) (* made by an imported package *).

(** ** The functions of package strings that resolve.go calls *)

Module strings.

(** [s[:n]] for [n <= len(s)]. *)
Fixpoint slice_to (n : nat) (s : string) : string :=
  match n, s with
  | S n', String c s' => String c (slice_to n' s')
  | _, _ => EmptyString
  end.

(** [s[n:]] for [n <= len(s)]. *)
Fixpoint slice_from (n : nat) (s : string) : string :=
  match n, s with
  | S n', String _ s' => slice_from n' s'
  | _, _ => s
  end.

(** strings.Index: the index of the first instance of [substr] in [s];
    [None] stands for Go's -1. *)
Fixpoint Index (s substr : string) : option nat :=
  if String.prefix substr s then Some 0
  else match s with
       | EmptyString => None
       | String _ s' => option_map S (Index s' substr)
       end.

(** strings.Cut: slices [s] around the first instance of [sep]. *)
Definition Cut (s sep : string) : string * string * bool :=
  match Index s sep with
  | Some i => (slice_to i s, slice_from (i + String.length sep) s, true)
  | None => (s, EmptyString, false)
  end.

(** Whether the byte [c] occurs in [s]. *)
Fixpoint has_byte (c : ascii) (s : string) : bool :=
  match s with
  | EmptyString => false
  | String x s' => Ascii.eqb x c || has_byte c s'
  end.

End strings.

(** ** Package names (resolve.go, lines 528-580) *)

Section PackageNames.

(** What resolve.go imports from github.com/coreos/go-semver/semver: the type
    of versions, [semver.NewVersion] with its two results, and the method
    [Version.String]. *)
Variable semver_Version : Type.
Variable semver_NewVersion : string -> option semver_Version * option error.
Variable semver_Version_String : semver_Version -> string.

(** PackageName. Two package names are equal when their three fields are,
    the versions compared as values. *)
Record PackageName : Type := Build_PackageName {
  Namespace : string;
  Name : string;
  Version : option semver_Version   (* *semver.Version, nil when absent *)
}.

(** PackageName.Validate *)
Definition PackageName_Validate (pn : PackageName) : option error :=
  if String.eqb (Namespace pn) "" then Some (errors_New "missing package namespace")
  else if String.eqb (Name pn) "" then Some (errors_New "missing package name")
  else None.

(** ParsePackageName *)
Definition ParsePackageName (s : string) : PackageName * option error :=
  let '(name, ver, hasVer) := strings.Cut s "@" in
  let '(ns, nm, _) := strings.Cut name ":" in
  if hasVer then
    let '(v, err) := semver_NewVersion ver in
    let pn := Build_PackageName ns nm v in
    match err with
    | Some e => (pn, Some e)
    | None => (pn, PackageName_Validate pn)
    end
  else
    let pn := Build_PackageName ns nm None in
    (pn, PackageName_Validate pn).

(** PackageName.String *)
Definition PackageName_String (pn : PackageName) : string :=
  match Version pn with
  | None => Namespace pn ++ ":" ++ Name pn
  | Some v => Namespace pn ++ ":" ++ Name pn ++ "@" ++ semver_Version_String v
  end.

End PackageNames.

Arguments Build_PackageName {semver_Version}.
Arguments Namespace {semver_Version}.
Arguments Name {semver_Version}.
Arguments Version {semver_Version}.
Arguments PackageName_Validate {semver_Version}.
Arguments ParsePackageName {semver_Version}.
Arguments PackageName_String {semver_Version}.

(** The parse as the specification words it (section 4.4): split on the first
    [:] for namespace and name, then on [@] for an optional version suffix.
    It is compared with [ParsePackageName] below. *)
Definition ParsePackageName_colon_first {semver_Version : Type}
    (semver_NewVersion : string -> option semver_Version * option error)
    (s : string) : PackageName semver_Version * option error :=
  let '(ns, rest, _) := strings.Cut s ":" in
  let '(nm, ver, hasVer) := strings.Cut rest "@" in
  if hasVer then
    let '(v, err) := semver_NewVersion ver in
    let pn := Build_PackageName ns nm v in
    match err with
    | Some e => (pn, Some e)
    | None => (pn, PackageName_Validate pn)
    end
  else
    let pn := Build_PackageName ns nm None in
    (pn, PackageName_Validate pn).

(** [x] read around the first byte [c]: [a] before it and [b] after it when
    [found], and otherwise [c] does not occur, [a] is [x] and [b] is empty. *)
Definition splits_at_first (c : ascii) (x a b : string) (found : bool) : Prop :=
  if found then x = a ++ String c b /\ strings.has_byte c a = false
  else a = x /\ b = "" /\ strings.has_byte c x = false.

(** The canonical textual forms [namespace:name] and [namespace:name@version]:
    namespace and name are not empty and hold no [@], the namespace holds no
    [:], and the version text is what the version library prints for a
    version and reads back as it. *)
Definition canonical {semver_Version : Type}
    (semver_NewVersion : string -> option semver_Version * option error)
    (semver_Version_String : semver_Version -> string) (s : string) : Prop :=
  exists ns nm : string,
    ns <> "" /\ nm <> "" /\ strings.has_byte ":" ns = false /\
    strings.has_byte "@" ns = false /\ strings.has_byte "@" nm = false /\
    (s = ns ++ ":" ++ nm \/
     exists v : semver_Version,
       semver_NewVersion (semver_Version_String v) = (Some v, None) /\
       s = ns ++ ":" ++ nm ++ "@" ++ semver_Version_String v).

(** ** Types and type definitions (resolve.go, lines 65-455) *)

(** Docs *)
Record Docs : Type := Build_Docs { Contents : string }.

(** The type set of the constraint [Primitive]: the Go types a [_primitive[T]]
    can be instantiated with. *)
Inductive Primitive : Type :=
| go_bool | go_int8 | go_uint8 | go_int16 | go_uint16 | go_int32 | go_uint32
| go_int64 | go_uint64 | go_float32 | go_float64 | go_char | go_string.

(** _primitive[T].TypeName: the type switch on the zero value of [T]. Every
    type of the constraint has a case, so the final [return "<undefined>"] is
    never reached. *)
Definition _primitive_TypeName (T : Primitive) : string :=
  match T with
  | go_bool => "bool"
  | go_int8 => "s8"
  | go_uint8 => "u8"
  | go_int16 => "s16"
  | go_uint16 => "u16"
  | go_int32 => "s32"
  | go_uint32 => "u32"
  | go_int64 => "s64"
  | go_uint64 => "u64"
  | go_float32 => "float32"
  | go_float64 => "float64"
  | go_char => "char"
  | go_string => "string"
  end.

(** TypeOwner: a [*World] or an [*Interface]. The back-link is kept as the
    position of the owner in [Resolve.Worlds] or [Resolve.Interfaces]. *)
Inductive TypeOwner : Type :=
| Owner_World (w : nat)
| Owner_Interface (i : nat).

(** The interfaces [Type] and [TypeDefKind] with the structs that implement
    them. A [*TypeDef] reached through a [Type] or a handle is embedded as the
    value it points to: the type graph is acyclic and nothing in the package
    writes to a [TypeDef] once it is built. A [Type] field that the source
    marks as possibly nil is an [option]. [Type_], [String_], [Record_] and
    [Variant_] stand for Type, String, Record and Variant, which Rocq
    reserves or already uses; [Kind_Type] is a [Type] in the place of a
    [TypeDefKind]. *)
Inductive Type_ : Type :=
| Bool | S8 | U8 | S16 | U16 | S32 | U32 | S64 | U64
| Float32 | Float64 | Char | String_
| TypeDef_ptr (t : TypeDef)
with TypeDef : Type :=
| Build_TypeDef (Name : option string) (Kind : TypeDefKind)
                (Owner : option TypeOwner) (Docs : Docs)
with TypeDefKind : Type :=
| Record_ (Fields : list Field)
| Resource
| OwnedHandle (Type' : TypeDef)
| BorrowedHandle (Type' : TypeDef)
| Flags (Flags : list Flag)
| Tuple (Types : list Type_)
| Variant_ (Cases : list Case)
| Enum (Cases : list EnumCase)
| Option (Type' : Type_)
| Result (OK Err : option Type_)
| List (Type' : Type_)
| Future (Type' : option Type_)
| Stream (Element End_ : option Type_)
| Kind_Type (Type' : Type_)
with Field : Type :=
| Build_Field (Name : string) (Type' : Type_) (Docs : Docs)
with Flag : Type :=
| Build_Flag (Name : string) (Docs : Docs)
with Case : Type :=
| Build_Case (Name : string) (Type' : option Type_) (Docs : Docs)
with EnumCase : Type :=
| Build_EnumCase (Name : string) (Docs : Docs).

Definition TypeDef_Name (t : TypeDef) : option string :=
  let '(Build_TypeDef n _ _ _) := t in n.
Definition TypeDef_Kind (t : TypeDef) : TypeDefKind :=
  let '(Build_TypeDef _ k _ _) := t in k.
Definition TypeDef_Owner (t : TypeDef) : option TypeOwner :=
  let '(Build_TypeDef _ _ o _) := t in o.

(** TypeDef.TypeName: [t.Name] is a [*string]. *)
Definition TypeDef_TypeName (t : TypeDef) : string :=
  match TypeDef_Name t with
  | Some name => name
  | None => ""
  end.

(** Type.TypeName, by the dynamic type of the interface value:
    [TypeDef.TypeName] for a [*TypeDef], and for a primitive struct the method
    promoted from the [_primitive[T]] it embeds. *)
Definition TypeName (t : Type_) : string :=
  match t with
  | TypeDef_ptr d => TypeDef_TypeName d
  | Bool => _primitive_TypeName go_bool
  | S8 => _primitive_TypeName go_int8
  | U8 => _primitive_TypeName go_uint8
  | S16 => _primitive_TypeName go_int16
  | U16 => _primitive_TypeName go_uint16
  | S32 => _primitive_TypeName go_int32
  | U32 => _primitive_TypeName go_uint32
  | S64 => _primitive_TypeName go_int64
  | U64 => _primitive_TypeName go_uint64
  | Float32 => _primitive_TypeName go_float32
  | Float64 => _primitive_TypeName go_float64
  | Char => _primitive_TypeName go_char
  | String_ => _primitive_TypeName go_string
  end.

(** ParseType *)
Definition ParseType (s : string) : option Type_ * option error :=
  if String.eqb s "bool" then (Some Bool, None)
  else if String.eqb s "s8" then (Some S8, None)
  else if String.eqb s "u8" then (Some U8, None)
  else if String.eqb s "s16" then (Some S16, None)
  else if String.eqb s "u16" then (Some U16, None)
  else if String.eqb s "s32" then (Some S32, None)
  else if String.eqb s "u32" then (Some U32, None)
  else if String.eqb s "s64" then (Some S64, None)
  else if String.eqb s "u64" then (Some U64, None)
  else if String.eqb s "float32" then (Some Float32, None)
  else if String.eqb s "float64" then (Some Float64, None)
  else if String.eqb s "char" then (Some Char, None)
  else if String.eqb s "string" then (Some String_, None)
  else (None, Some (fmt_Errorf "unknown type %q" s)).

(** The thirteen canonical names of the primitive types. *)
Definition primitive_names : list string :=
  ["bool"; "s8"; "u8"; "s16"; "u16"; "s32"; "u32"; "s64"; "u64";
   "float32"; "float64"; "char"; "string"].

(** ** The wasm-tools adapter (load.go) *)

Section Load.

(** [io.Reader] values and what [DecodeJSON] (decode.go) returns are passed
    through by load.go and stay abstract. *)
Variable Reader : Type.
Variable Resolve : Type.

(** What loadWIT calls outside the package's own code, with the results the
    calls give: exec.LookPath, running the command built by exec.Command
    (its results are what was written to Stdout and Stderr, and the error of
    cmd.Run), and DecodeJSON on the captured output. *)
Record Host : Type := Build_Host {
  exec_LookPath : string -> string * option error;
  cmd_Run : string -> list string -> option Reader -> string * string * option error;
  DecodeJSON : string -> option Resolve * option error
}.

(** The calls a run makes, in order. *)
Inductive event : Type :=
| LookPath_called (file : string)
| Command_run (name : string) (args : list string) (stdin : option Reader)
| Stderr_printed (text : string)
| DecodeJSON_called (data : string).

(** A computation: the events it performs, then its result. *)
Definition IO (A : Type) : Type := list event * A.

Definition ret {A : Type} (a : A) : IO A := ([], a).

Definition bind {A B : Type} (m : IO A) (k : A -> IO B) : IO B :=
  let '(t1, a) := m in
  let '(t2, b) := k a in
  ((t1 ++ t2)%list, b).

Definition perform {A : Type} (e : event) (a : A) : IO A := ([e], a).

Variable host : Host.

(** The guard of loadWIT's first statement: [path != "" && reader != nil]. *)
Definition both_set (path : string) (reader : option Reader) : bool :=
  negb (String.eqb path "") &&
  match reader with Some _ => true | None => false end.

(** loadWIT after its guard (load.go, lines 51-73). *)
Definition run_wasm_tools (path : string) (reader : option Reader)
  : IO (option Resolve * option error) :=
  bind (perform (LookPath_called "wasm-tools") (exec_LookPath host "wasm-tools"))
    (fun '(wasmTools, err) =>
  match err with
  | Some e => ret (None, Some e)
  | None =>
    let cmdArgs := ["component"; "wit"; "-j"; "--all-features"] in
    let cmdArgs := if negb (String.eqb path "") then (cmdArgs ++ [path])%list else cmdArgs in
    bind (perform (Command_run wasmTools cmdArgs reader)
                  (cmd_Run host wasmTools cmdArgs reader))
      (fun '(stdout, stderr, err) =>
    match err with
    | Some e => bind (perform (Stderr_printed stderr) tt) (fun _ => ret (None, Some e))
    | None => perform (DecodeJSON_called stdout) (DecodeJSON host stdout)
    end)
  end).

(** loadWIT *)
Definition loadWIT (path : string) (reader : option Reader)
  : IO (option Resolve * option error) :=
  if both_set path reader then
    ret (None, Some (errors_New "cannot set both path and reader; provide only one"))
  else run_wasm_tools path reader.

(** LoadWIT *)
Definition LoadWIT (path : string) : IO (option Resolve * option error) :=
  loadWIT path None.

(** DecodeWIT: [r] is an interface value and may be nil. *)
Definition DecodeWIT (r : option Reader) : IO (option Resolve * option error) :=
  loadWIT "" r.

End Load.

(** The arguments loadWIT gives wasm-tools when [path] is empty. *)
Definition wit_args : list string := ["component"; "wit"; "-j"; "--all-features"].

Arguments Build_Host {Reader Resolve}.
Arguments exec_LookPath {Reader Resolve}.
Arguments cmd_Run {Reader Resolve}.
Arguments DecodeJSON {Reader Resolve}.
Arguments LookPath_called {Reader}.
Arguments Command_run {Reader}.
Arguments Stderr_printed {Reader}.
Arguments DecodeJSON_called {Reader}.
Arguments both_set {Reader}.
Arguments run_wasm_tools {Reader Resolve}.
Arguments loadWIT {Reader Resolve}.
Arguments LoadWIT {Reader Resolve}.
Arguments DecodeWIT {Reader Resolve}.

(** ** The resolution engine *)

(** Modelled from the spec: the Resolution Engine of section 4.2 (DecodeJSON
    in decode.go, and the decoder behind it) is missing from src/. This is its
    algorithm as the specification gives it, for the sequence of type
    definitions: the flat document refers to types by zero-based index or by
    primitive name; shape is validated, then bounds, then the entities are
    materialized in sequence order with every reference turned into a link, a
    forward reference being an error; a handle's target must have Kind
    Resource; primitive names are looked up with [ParseType]. Worlds,
    interfaces and packages are kept by name, as the targets of owner
    indices. *)
Module Resolution.

(** A type reference of the flat document. *)
Inductive RawType : Type :=
| Raw_primitive (name : string)
| Raw_index (i : Z).

(** The tagged kinds of the flat document. *)
Inductive RawKind : Type :=
| Raw_record (fields : list (string * RawType))
| Raw_resource
| Raw_own (i : Z)
| Raw_borrow (i : Z)
| Raw_flags (names : list string)
| Raw_tuple (types : list RawType)
| Raw_variant (cases : list (string * option RawType))
| Raw_enum (names : list string)
| Raw_option (t : RawType)
| Raw_result (ok err : option RawType)
| Raw_list (t : RawType)
| Raw_future (t : option RawType)
| Raw_stream (element end_ : option RawType)
| Raw_alias (t : RawType).

Inductive RawOwner : Type :=
| Raw_world (i : Z)
| Raw_interface (i : Z).

Record RawTypeDef : Type := Build_RawTypeDef {
  raw_name : option string;
  raw_kind : RawKind;
  raw_owner : option RawOwner;
  raw_docs : string
}.

Record Document : Type := Build_Document {
  doc_worlds : list string;
  doc_interfaces : list string;
  doc_types : list RawTypeDef;
  doc_packages : list string
}.

(** The resolved graph. *)
Record TypeGraph : Type := Build_TypeGraph {
  Worlds : list string;
  Interfaces : list string;
  TypeDefs : list TypeDef;
  Packages : list string
}.

(** The error kinds of section 7 that resolution raises; [entity] is the
    position of the offending type definition. *)
Inductive ResolveError : Type :=
| DecodeError (entity : nat) (text : string)
| IndexOutOfRange (entity : nat) (field : string) (index : Z)
| InvalidHandleTarget (entity : nat) (target : Z).

Definition type_indices (t : RawType) : list Z :=
  match t with
  | Raw_index i => [i]
  | Raw_primitive _ => []
  end.

Definition optional_indices (o : option RawType) : list Z :=
  match o with
  | Some t => type_indices t
  | None => []
  end.

(** The indices into [types] that a kind holds. *)
Definition kind_indices (k : RawKind) : list Z :=
  match k with
  | Raw_record fields => flat_map (fun f => type_indices (snd f)) fields
  | Raw_resource => []
  | Raw_own i => [i]
  | Raw_borrow i => [i]
  | Raw_flags _ => []
  | Raw_tuple types => flat_map type_indices types
  | Raw_variant cases => flat_map (fun c => optional_indices (snd c)) cases
  | Raw_enum _ => []
  | Raw_option t => type_indices t
  | Raw_result ok err => (optional_indices ok ++ optional_indices err)%list
  | Raw_list t => type_indices t
  | Raw_future t => optional_indices t
  | Raw_stream element end_ => (optional_indices element ++ optional_indices end_)%list
  | Raw_alias t => type_indices t
  end.

Definition owner_index (o : option RawOwner) : list Z :=
  match o with
  | Some (Raw_world i) => [i]
  | Some (Raw_interface i) => [i]
  | None => []
  end.

(** Runs [check] on every entity with its position and returns the first
    error. *)
Fixpoint first_error {A : Type} (check : nat -> A -> option ResolveError)
    (pos : nat) (l : list A) : option ResolveError :=
  match l with
  | [] => None
  | x :: l' =>
    match check pos x with
    | Some e => Some e
    | None => first_error check (S pos) l'
    end
  end.

(** Step 1: index fields are non-negative integers. *)
Definition validate_shape (doc : Document) : option ResolveError :=
  first_error
    (fun pos r =>
       if forallb (fun i => (0 <=? i)%Z)
                  (kind_indices (raw_kind r) ++ owner_index (raw_owner r))%list
       then None else Some (DecodeError pos "negative index"))
    0 (doc_types doc).

(** The first index of [l] that is not below [bound]. *)
Definition out_of_bounds (bound : nat) (l : list Z) : option Z :=
  find (fun i => (Z.of_nat bound <=? i)%Z) l.

(** Step 2: every index is in bounds for its target sequence. *)
Definition check_bounds (doc : Document) : option ResolveError :=
  first_error
    (fun pos r =>
       match out_of_bounds (length (doc_types doc)) (kind_indices (raw_kind r)) with
       | Some i => Some (IndexOutOfRange pos "type" i)
       | None =>
         match raw_owner r with
         | Some (Raw_world i) =>
           if (Z.of_nat (length (doc_worlds doc)) <=? i)%Z
           then Some (IndexOutOfRange pos "owner" i) else None
         | Some (Raw_interface i) =>
           if (Z.of_nat (length (doc_interfaces doc)) <=? i)%Z
           then Some (IndexOutOfRange pos "owner" i) else None
         | None => None
         end
       end)
    0 (doc_types doc).

Definition result (A : Type) : Type := (A + ResolveError)%type.

(** Applies [f] to the elements in order and stops at the first error. *)
Fixpoint map_result {A B : Type} (f : A -> result B) (l : list A) : result (list B) :=
  match l with
  | [] => inl []
  | x :: l' =>
    match f x with
    | inr e => inr e
    | inl y =>
      match map_result f l' with
      | inr e => inr e
      | inl ys => inl (y :: ys)
      end
    end
  end.

(** Steps 3 and 5 for one reference: a primitive name is looked up in the
    fixed table; an index is a link to the entity materialized at that
    position, and an index at or after the current position [pos] (the length
    of [done]) is a forward reference. *)
Definition link_type (done : list TypeDef) (pos : nat) (t : RawType) : result Type_ :=
  match t with
  | Raw_primitive name =>
    match ParseType name with
    | (Some ty, _) => inl ty
    | (None, _) => inr (DecodeError pos name)
    end
  | Raw_index i =>
    match nth_error done (Z.to_nat i) with
    | Some td => inl (TypeDef_ptr td)
    | None => inr (IndexOutOfRange pos "type" i)
    end
  end.

Definition link_optional (done : list TypeDef) (pos : nat) (o : option RawType)
  : result (option Type_) :=
  match o with
  | None => inl None
  | Some t =>
    match link_type done pos t with
    | inl ty => inl (Some ty)
    | inr e => inr e
    end
  end.

(** Modelled from the spec: step 4 of section 4.2, missing from src/ with the
    rest of the decoder: the target of a handle must have Kind Resource, and a
    violation is the error InvalidHandleTarget. *)
Definition link_handle (done : list TypeDef) (pos : nat) (i : Z) : result TypeDef :=
  match nth_error done (Z.to_nat i) with
  | None => inr (IndexOutOfRange pos "handle" i)
  | Some td =>
    match TypeDef_Kind td with
    | Resource => inl td
    | _ => inr (InvalidHandleTarget pos i)
    end
  end.

Definition no_docs : Docs := Build_Docs "".

Definition materialize_kind (done : list TypeDef) (pos : nat) (k : RawKind)
  : result TypeDefKind :=
  match k with
  | Raw_record fields =>
    match map_result (fun f =>
            match link_type done pos (snd f) with
            | inl ty => inl (Build_Field (fst f) ty no_docs)
            | inr e => inr e
            end) fields with
    | inl fs => inl (Record_ fs)
    | inr e => inr e
    end
  | Raw_resource => inl Resource
  | Raw_own i =>
    match link_handle done pos i with
    | inl td => inl (OwnedHandle td)
    | inr e => inr e
    end
  | Raw_borrow i =>
    match link_handle done pos i with
    | inl td => inl (BorrowedHandle td)
    | inr e => inr e
    end
  | Raw_flags names => inl (Flags (map (fun n => Build_Flag n no_docs) names))
  | Raw_tuple types =>
    match map_result (link_type done pos) types with
    | inl ts => inl (Tuple ts)
    | inr e => inr e
    end
  | Raw_variant cases =>
    match map_result (fun c =>
            match link_optional done pos (snd c) with
            | inl ty => inl (Build_Case (fst c) ty no_docs)
            | inr e => inr e
            end) cases with
    | inl cs => inl (Variant_ cs)
    | inr e => inr e
    end
  | Raw_enum names => inl (Enum (map (fun n => Build_EnumCase n no_docs) names))
  | Raw_option t =>
    match link_type done pos t with
    | inl ty => inl (Option ty)
    | inr e => inr e
    end
  | Raw_result ok err =>
    match link_optional done pos ok with
    | inr e => inr e
    | inl ok' =>
      match link_optional done pos err with
      | inl err' => inl (Result ok' err')
      | inr e => inr e
      end
    end
  | Raw_list t =>
    match link_type done pos t with
    | inl ty => inl (List ty)
    | inr e => inr e
    end
  | Raw_future t =>
    match link_optional done pos t with
    | inl ty => inl (Future ty)
    | inr e => inr e
    end
  | Raw_stream element end_ =>
    match link_optional done pos element with
    | inr e => inr e
    | inl element' =>
      match link_optional done pos end_ with
      | inl end' => inl (Stream element' end')
      | inr e => inr e
      end
    end
  | Raw_alias t =>
    match link_type done pos t with
    | inl ty => inl (Kind_Type ty)
    | inr e => inr e
    end
  end.

(** The back-link to the owner, assigned as the entity is created. *)
Definition link_owner (o : option RawOwner) : option TypeOwner :=
  match o with
  | Some (Raw_world i) => Some (Owner_World (Z.to_nat i))
  | Some (Raw_interface i) => Some (Owner_Interface (Z.to_nat i))
  | None => None
  end.

Definition materialize_typedef (done : list TypeDef) (r : RawTypeDef) : result TypeDef :=
  match materialize_kind done (length done) (raw_kind r) with
  | inl k => inl (Build_TypeDef (raw_name r) k (link_owner (raw_owner r))
                                (Build_Docs (raw_docs r)))
  | inr e => inr e
  end.

(** Modelled from the spec: step 3 of section 4.2 (the decoder is missing
    from src/): the entities are materialized in sequence order; [done] holds
    those before the current position. *)
Fixpoint materialize (done : list TypeDef) (rest : list RawTypeDef)
  : result (list TypeDef) :=
  match rest with
  | [] => inl done
  | r :: rest' =>
    match materialize_typedef done r with
    | inl td => materialize (done ++ [td]) rest'
    | inr e => inr e
    end
  end.

(** Modelled from the spec: the resolution that DecodeJSON performs (decode.go
    is missing from src/), by the numbered steps of section 4.2: a graph, or
    the first inconsistency found. *)
Definition resolve (doc : Document) : result TypeGraph :=
  match validate_shape doc with
  | Some e => inr e
  | None =>
    match check_bounds doc with
    | Some e => inr e
    | None =>
      match materialize [] (doc_types doc) with
      | inl tds => inl (Build_TypeGraph (doc_worlds doc) (doc_interfaces doc) tds
                                        (doc_packages doc))
      | inr e => inr e
      end
    end
  end.

(** The type definitions a kind links to directly. *)
Definition type_links (t : Type_) : list TypeDef :=
  match t with
  | TypeDef_ptr td => [td]
  | _ => []
  end.

Definition optional_links (o : option Type_) : list TypeDef :=
  match o with
  | Some t => type_links t
  | None => []
  end.

Definition kind_links (k : TypeDefKind) : list TypeDef :=
  match k with
  | Record_ fields => flat_map (fun '(Build_Field _ t _) => type_links t) fields
  | Resource => []
  | OwnedHandle td => [td]
  | BorrowedHandle td => [td]
  | Flags _ => []
  | Tuple types => flat_map type_links types
  | Variant_ cases => flat_map (fun '(Build_Case _ t _) => optional_links t) cases
  | Enum _ => []
  | Option t => type_links t
  | Result ok err => (optional_links ok ++ optional_links err)%list
  | List t => type_links t
  | Future t => optional_links t
  | Stream element end_ => (optional_links element ++ optional_links end_)%list
  | Kind_Type t => type_links t
  end.

(** The type definitions of a graph: those of its collection and every one
    reached from them through links. *)
Inductive in_graph (g : TypeGraph) : TypeDef -> Prop :=
| in_collection td : In td (TypeDefs g) -> in_graph g td
| in_link td td' :
    in_graph g td -> In td' (kind_links (TypeDef_Kind td)) -> in_graph g td'.

(** The target of a handle kind. *)
Definition handle_target (k : TypeDefKind) : option TypeDef :=
  match k with
  | OwnedHandle td => Some td
  | BorrowedHandle td => Some td
  | _ => None
  end.

Definition raw_handle_target (k : RawKind) : option Z :=
  match k with
  | Raw_own i => Some i
  | Raw_borrow i => Some i
  | _ => None
  end.

Definition is_Resource (k : TypeDefKind) : bool :=
  match k with
  | Resource => true
  | _ => false
  end.

Definition is_Raw_resource (k : RawKind) : bool :=
  match k with
  | Raw_resource => true
  | _ => false
  end.

(** The invariant of materialization: links stay inside the collection and
    every handle targets a Resource. *)
Definition closed_and_handled (tds : list TypeDef) : Prop :=
  forall td, In td tds ->
    incl (kind_links (TypeDef_Kind td)) tds /\
    forall t, handle_target (TypeDef_Kind td) = Some t -> TypeDef_Kind t = Resource.

(** [new] is what materializing [rest] after [done] adds: each entity is made
    from the ones before it. *)
Inductive materialized : list TypeDef -> list RawTypeDef -> list TypeDef -> Prop :=
| materialized_nil done : materialized done [] []
| materialized_cons done r rest td new :
    materialize_typedef done r = inl td ->
    materialized (done ++ [td]) rest new ->
    materialized done (r :: rest) (td :: new).

(** Three type definitions: a resource, an owned handle to it, and a record
    with a field of that handle type. *)
Definition doc_handles : Document :=
  Build_Document ["w"] ["i"]
    [ Build_RawTypeDef (Some "file") Raw_resource (Some (Raw_interface 0)) "";
      Build_RawTypeDef None (Raw_own 0) None "";
      Build_RawTypeDef (Some "open-result")
        (Raw_record [("handle", Raw_index 1); ("size", Raw_primitive "u64")])
        (Some (Raw_interface 0)) "" ]
    ["p:q"].

(** Scenario E: a handle whose target is a record. *)
Definition doc_bad_handle : Document :=
  Build_Document ["w"] ["i"]
    [ Build_RawTypeDef (Some "point")
        (Raw_record [("x", Raw_primitive "s32")]) None "";
      Build_RawTypeDef None (Raw_borrow 0) None "" ]
    ["p:q"].

End Resolution.

(** ** An instance of the imported version library *)

(** Modelled from the spec: the semantic-version library that resolve.go
    imports (github.com/coreos/go-semver/semver) is not part of src/, and the
    specification asks only for [a valid semantic version]. This instance
    reads and prints versions as that package does: MAJOR.MINOR.PATCH in
    decimal, then an optional [-prerelease] and an optional [+metadata]. It
    is what the general statements about [ParsePackageName] are run on; they
    are proved for any version library. *)
Module semver.

Record Version : Type := Build_Version {
  Major : Z;
  Minor : Z;
  Patch : Z;
  PreRelease : string;
  Metadata : string
}.

(** The digits of an unsigned decimal numeral: empty input and any byte that
    is not a digit are syntax errors. *)
Definition parse_digits (s : string) : option N :=
  option_map N.of_uint (NilZero.uint_of_string s).

(** strconv.ParseInt(s, 10, 64), [None] when it returns an error: an optional
    sign, then digits, within the range of int64. *)
Definition ParseInt (s : string) : option Z :=
  match s with
  | EmptyString => None
  | String c s' =>
    if Ascii.eqb c "+" then
      match parse_digits s' with
      | Some un => if (un <? 2 ^ 63)%N then Some (Z.of_N un) else None
      | None => None
      end
    else if Ascii.eqb c "-" then
      match parse_digits s' with
      | Some un => if (un <=? 2 ^ 63)%N then Some (- Z.of_N un)%Z else None
      | None => None
      end
    else
      match parse_digits s with
      | Some un => if (un <? 2 ^ 63)%N then Some (Z.of_N un) else None
      | None => None
      end
  end.

(** Whether every byte of [s] is a decimal digit. *)
Fixpoint digits_only (s : string) : bool :=
  match s with
  | EmptyString => true
  | String c s' =>
    ((48 <=? nat_of_ascii c) && (nat_of_ascii c <=? 57))%nat && digits_only s'
  end.

(** The verb %d on an int64. *)
Definition format_d (z : Z) : string :=
  NilZero.string_of_int (Z.to_int z).

(** A byte of the class [0-9A-Za-z-]. *)
Definition ident_byte (c : ascii) : bool :=
  let n := nat_of_ascii c in
  (((48 <=? n) && (n <=? 57)) || ((65 <=? n) && (n <=? 90)) ||
   ((97 <=? n) && (n <=? 122)) || (n =? 45))%nat.

(** Whether [s] continues a match of [[0-9A-Za-z-]+(\.[0-9A-Za-z-]+)*] to the
    end of the text; [started] says that the current dot-separated part
    already has a byte. *)
Fixpoint ident_parts (started : bool) (s : string) : bool :=
  match s with
  | EmptyString => started
  | String c s' =>
    if Ascii.eqb c "." then started && ident_parts false s'
    else ident_byte c && ident_parts true s'
  end.

(** validateIdentifier: the empty identifier is accepted. *)
Definition validateIdentifier (id : string) : bool :=
  String.eqb id "" || ident_parts false id.

(** Modelled from the spec: semver.NewVersion of the imported package, which
    is not under src/ (through Version.Set). splitOff is strings.SplitN with a
    count of 2, which cuts at the first delimiter as strings.Cut does. The
    error of strconv.ParseInt is kept without its message. *)
Definition NewVersion (version : string) : option Version * option error :=
  let '(version, metadata, _) := strings.Cut version "+" in
  let '(version, preRelease, _) := strings.Cut version "-" in
  let '(major, rest, dot1) := strings.Cut version "." in
  let '(minor, patch, dot2) := strings.Cut rest "." in
  if negb (dot1 && dot2) then
    (None, Some (imported_error "semver" (version ++ " is not in dotted-tri format")))
  else if negb (validateIdentifier preRelease) then
    (None, Some (imported_error "semver"
       ("failed to validate pre-release: " ++ preRelease
        ++ " is not a valid semver identifier")))
  else if negb (validateIdentifier metadata) then
    (None, Some (imported_error "semver"
       ("failed to validate metadata: " ++ metadata
        ++ " is not a valid semver identifier")))
  else
    match ParseInt major, ParseInt minor, ParseInt patch with
    | Some a, Some b, Some c => (Some (Build_Version a b c preRelease metadata), None)
    | _, _, _ => (None, Some (imported_error "strconv" "ParseInt"))
    end.

(** Modelled from the spec: Version.String of the imported package, which is
    not under src/: the three numbers with %d, then the pre-release after a
    dash and the metadata after a plus sign when they are not empty. *)
Definition Version_String (v : Version) : string :=
  format_d (Major v) ++ "." ++ format_d (Minor v) ++ "." ++ format_d (Patch v)
  ++ (if String.eqb (PreRelease v) "" then "" else "-" ++ PreRelease v)
  ++ (if String.eqb (Metadata v) "" then "" else "+" ++ Metadata v).

End semver.

(** The package name [wasi:clocks@1.0.0]. *)
Definition wasi_clocks_1_0_0 : PackageName semver.Version :=
  Build_PackageName "wasi" "clocks" (Some (semver.Build_Version 1 0 0 "" "")).

(** A host on which wasm-tools is installed and succeeds; readers are the
    text they deliver and a resolved graph is its JSON text. *)
Definition host_ok : Host string string :=
  Build_Host
    (fun file => ("/usr/bin/" ++ file, None))
    (fun name args stdin => ("{}", "", None))
    (fun data => (Some data, None)).

(** ** What the further properties are stated with *)

(** Whether [t] is one of the thirteen primitive structs, and no [*TypeDef]. *)
Definition is_primitive (t : Type_) : bool :=
  match t with
  | TypeDef_ptr _ => false
  | _ => true
  end.

(** The PackageName values that carry what a parse can produce: namespace and
    name are not empty and hold no [@], the namespace holds no [:], and the
    version, when there is one, is read back by the version library from the
    text it prints for it. *)
Definition well_formed {semver_Version : Type}
    (semver_NewVersion : string -> option semver_Version * option error)
    (semver_Version_String : semver_Version -> string)
    (pn : PackageName semver_Version) : Prop :=
  Namespace pn <> "" /\ Name pn <> "" /\
  strings.has_byte ":" (Namespace pn) = false /\
  strings.has_byte "@" (Namespace pn) = false /\
  strings.has_byte "@" (Name pn) = false /\
  match Version pn with
  | Some v => semver_NewVersion (semver_Version_String v) = (Some v, None)
  | None => True
  end.

(** The text [s] is empty or begins with the byte [c]. *)
Definition empty_or_begins_with (c : ascii) (s : string) : Prop :=
  s = "" \/ exists rest : string, s = String c rest.

(** The arguments loadWIT gives wasm-tools: the path is appended when it is
    not empty. *)
Definition wasm_tools_args (path : string) : list string :=
  if String.eqb path "" then wit_args else (wit_args ++ [path])%list.

Definition is_Command_run {Reader : Type} (e : event Reader) : bool :=
  match e with
  | Command_run _ _ _ => true
  | _ => false
  end.

(** ** LoadJSON (load.go, lines 15-22) *)

Section LoadJSON_model.

(** [*os.File] values and what DecodeJSON returns stay abstract. os.Open and
    DecodeJSON, which reads from the file it is given, are the two calls
    LoadJSON makes outside load.go; the error of the deferred f.Close() is
    dropped by the code and does not appear. *)
Variable File : Type.
Variable Resolve : Type.
Variable os_Open : string -> option File * option error.
Variable DecodeJSON_from : option File -> option Resolve * option error.

(** The calls a run of LoadJSON makes, in order. *)
Inductive file_event : Type :=
| Open_called (path : string)
| DecodeJSON_reads (f : option File)
| Close_called (f : option File).

(** LoadJSON: the deferred f.Close() runs when DecodeJSON has returned. *)
Definition LoadJSON (path : string)
  : list file_event * (option Resolve * option error) :=
  let '(f, err) := os_Open path in
  match err with
  | Some e => ([Open_called path], (None, Some e))
  | None =>
    let result := DecodeJSON_from f in
    ([Open_called path; DecodeJSON_reads f; Close_called f], result)
  end.

End LoadJSON_model.

Arguments Open_called {File}.
Arguments DecodeJSON_reads {File}.
Arguments Close_called {File}.
Arguments LoadJSON {File Resolve}.

(** A file system with one readable file, [resolve.json]. *)
Definition open_one_file (path : string) : option string * option error :=
  if String.eqb path "resolve.json" then (Some "{}", None)
  else (None, Some (imported_error "os" "no such file or directory")).

(** A decoder that shows what it was given. *)
Definition decode_contents (f : option string) : option string * option error :=
  match f with
  | Some data => (Some data, None)
  | None => (None, Some (imported_error "io" "invalid argument"))
  end.

(** A host on which wasm-tools is found and fails. *)
Definition host_failing_tool : Host string string :=
  Build_Host
    (fun file => ("/usr/bin/" ++ file, None))
    (fun name args stdin => ("", "error: no such file", Some (imported_error "exec" "exit status 1")))
    (fun data => (Some data, None)).

(** A host without wasm-tools on its search path. *)
Definition host_without_tool : Host string string :=
  Build_Host
    (fun file => ("", Some (imported_error "exec" "executable file not found in $PATH")))
    (fun name args stdin => ("", "", Some (imported_error "exec" "no command")))
    (fun data => (Some data, None)).

(** * Properties *)

(** ** strings.Cut around a one-byte separator *)

Module strings_facts.
Import strings.

Lemma prefix_byte (c x : ascii) (s : string) :
  String.prefix (String c EmptyString) (String x s) = Ascii.eqb x c.
Proof.
  simpl. destruct (ascii_dec c x) as [->|n].
  - rewrite Ascii.eqb_refl. now destruct s.
  - symmetry. apply Ascii.eqb_neq. congruence.
Qed.

(** One step of [Cut] around a one-byte separator. *)
Lemma Cut_byte_cons (c x : ascii) (s : string) :
  Cut (String x s) (String c EmptyString) =
  if Ascii.eqb x c then (EmptyString, s, true)
  else let '(a, b, found) := Cut s (String c EmptyString) in
       if found then (String x a, b, true) else (String x s, EmptyString, false).
Proof.
  unfold Cut. cbn [Index]. rewrite prefix_byte.
  destruct (Ascii.eqb x c); [reflexivity|].
  destruct (Index s (String c EmptyString)) as [i|]; cbn; reflexivity.
Qed.

Lemma Cut_byte_nil (c : ascii) :
  Cut EmptyString (String c EmptyString) = (EmptyString, EmptyString, false).
Proof. reflexivity. Qed.

Lemma Cut_byte_absent (c : ascii) (s : string) :
  has_byte c s = false -> Cut s (String c EmptyString) = (s, EmptyString, false).
Proof.
  induction s as [|x s IH]; intros H; [reflexivity|].
  cbn in H. apply orb_false_iff in H as [Hx Hs].
  rewrite Cut_byte_cons, Hx, (IH Hs). reflexivity.
Qed.

Lemma Cut_byte_app (c : ascii) (a b : string) :
  has_byte c a = false ->
  Cut (a ++ String c b) (String c EmptyString) = (a, b, true).
Proof.
  induction a as [|x a IH]; intros H; cbn [append].
  - rewrite Cut_byte_cons, Ascii.eqb_refl. reflexivity.
  - cbn in H. apply orb_false_iff in H as [Hx Ha].
    rewrite Cut_byte_cons, Hx, (IH Ha). reflexivity.
Qed.

Lemma Cut_byte_found (c : ascii) (s a b : string) :
  Cut s (String c EmptyString) = (a, b, true) ->
  s = a ++ String c b /\ has_byte c a = false.
Proof.
  revert a b. induction s as [|x s IH]; intros a b H.
  - discriminate H.
  - rewrite Cut_byte_cons in H. destruct (Ascii.eqb x c) eqn:Hx.
    + inversion H; subst. apply Ascii.eqb_eq in Hx. subst. now split.
    + destruct (Cut s (String c EmptyString)) as [[a' b'] [|]]; inversion H; subst.
      destruct (IH a' b eq_refl) as [-> Ha']. cbn. rewrite Hx, Ha'. now split.
Qed.

Lemma Cut_byte_not_found (c : ascii) (s a b : string) :
  Cut s (String c EmptyString) = (a, b, false) ->
  a = s /\ b = EmptyString /\ has_byte c s = false.
Proof.
  revert a b. induction s as [|x s IH]; intros a b H.
  - inversion H. now repeat split.
  - rewrite Cut_byte_cons in H. destruct (Ascii.eqb x c) eqn:Hx; [discriminate H|].
    destruct (Cut s (String c EmptyString)) as [[a' b'] [|]] eqn:E; inversion H; subst.
    destruct (IH a' b' eq_refl) as (_ & _ & Hs). cbn. rewrite Hx, Hs. now repeat split.
Qed.

Lemma has_byte_app (c : ascii) (a b : string) :
  has_byte c (a ++ b) = has_byte c a || has_byte c b.
Proof.
  induction a as [|x a IH]; cbn; [reflexivity|]. now rewrite IH, orb_assoc.
Qed.

End strings_facts.



(** ** Package names *)

Section PackageName_theory.
Import strings strings_facts.

Variable semver_Version : Type.
Variable NewVersion : string -> option semver_Version * option error.
Variable Version_String : semver_Version -> string.

Abbreviation parse := (ParsePackageName NewVersion).
Abbreviation parse_colon_first := (ParsePackageName_colon_first NewVersion).
Abbreviation to_string := (PackageName_String Version_String).

Lemma Cut_byte_spec (c : ascii) (x : string) :
  let '(a, b, found) := Cut x (String c EmptyString) in splits_at_first c x a b found.
Proof.
  destruct (Cut x (String c EmptyString)) as [[a b] [|]] eqn:E; cbn.
  - now apply Cut_byte_found.
  - now apply Cut_byte_not_found.
Qed.

Lemma splits_at_first_Cut (c : ascii) (x a b : string) (found : bool) :
  splits_at_first c x a b found -> Cut x (String c EmptyString) = (a, b, found).
Proof.
  destruct found; cbn.
  - intros [-> H]. now apply Cut_byte_app.
  - intros (-> & -> & H). now apply Cut_byte_absent.
Qed.

Lemma eqb_empty_false (s : string) : s <> "" -> String.eqb s "" = false.
Proof. intros H. now apply String.eqb_neq. Qed.

Lemma Validate_None (pn : PackageName semver_Version) :
  PackageName_Validate pn = None <-> Namespace pn <> "" /\ Name pn <> "".
Proof.
  unfold PackageName_Validate.
  destruct (String.eqb_spec (Namespace pn) "") as [E1|E1].
  - split; [discriminate | tauto].
  - destruct (String.eqb_spec (Name pn) "") as [E2|E2].
    + split; [discriminate | tauto].
    + tauto.
Qed.

Lemma Validate_Some (pn : PackageName semver_Version) :
  PackageName_Validate pn <> None <-> Namespace pn = "" \/ Name pn = "".
Proof.
  unfold PackageName_Validate.
  destruct (String.eqb_spec (Namespace pn) "") as [E1|E1].
  - split; [tauto | discriminate].
  - destruct (String.eqb_spec (Name pn) "") as [E2|E2].
    + split; [tauto | discriminate].
    + tauto.
Qed.

(** The parse of a text without [@]. *)
Lemma parse_without_version (s : string) :
  has_byte "@" s = false ->
  parse s =
  (let '(ns, nm, _) := Cut s ":" in
   let pn := Build_PackageName ns nm None in (pn, PackageName_Validate pn)).
Proof.
  intros H. unfold ParsePackageName.
  rewrite (Cut_byte_absent "@" s H). reflexivity.
Qed.

(** The parse of a text whose first [@] is followed by [ver]. *)
Lemma parse_with_version (name ver : string) :
  has_byte "@" name = false ->
  parse (name ++ "@" ++ ver) =
  (let '(ns, nm, _) := Cut name ":" in
   let '(v, err) := NewVersion ver in
   let pn := Build_PackageName ns nm v in
   match err with Some e => (pn, Some e) | None => (pn, PackageName_Validate pn) end).
Proof.
  intros H. unfold ParsePackageName. cbn [append].
  rewrite (Cut_byte_app "@" name ver H). reflexivity.
Qed.

Lemma append_assoc3 (a b c : string) : a ++ b ++ c = (a ++ b) ++ c.
Proof. induction a as [|x a IH]; cbn; [reflexivity | now rewrite IH]. Qed.

Lemma parse_cases (s : string) :
  (has_byte "@" s = false /\
   parse s = (let '(ns, nm, _) := Cut s ":" in
              let pn := Build_PackageName ns nm None in (pn, PackageName_Validate pn)))
  \/
  (exists name ver : string,
     s = name ++ "@" ++ ver /\ has_byte "@" name = false /\
     parse s = (let '(ns, nm, _) := Cut name ":" in
                let '(v, err) := NewVersion ver in
                let pn := Build_PackageName ns nm v in
                match err with
                | Some e => (pn, Some e)
                | None => (pn, PackageName_Validate pn)
                end)).
Proof.
  pose proof (Cut_byte_spec "@" s) as H.
  destruct (Cut s "@") as [[name ver] [|]]; cbn in H.
  - right. destruct H as [-> H]. exists name, ver. split; [reflexivity|].
    split; [exact H|]. now apply parse_with_version.
  - left. destruct H as (_ & _ & H). split; [exact H|]. now apply parse_without_version.
Qed.

Lemma has_byte_at_app (name ver : string) : has_byte "@" (name ++ "@" ++ ver) = true.
Proof. rewrite has_byte_app. cbn. apply orb_true_r. Qed.

(** The text before the first [@] and the text after it are determined. *)
Lemma at_split_unique (name ver name' ver' : string) :
  has_byte "@" name = false -> has_byte "@" name' = false ->
  name ++ "@" ++ ver = name' ++ "@" ++ ver' -> name = name' /\ ver = ver'.
Proof.
  intros H H' E.
  pose proof (Cut_byte_app "@" name ver H) as C.
  pose proof (Cut_byte_app "@" name' ver' H') as C'.
  cbn [append] in E. rewrite E in C. rewrite C in C'. now inversion C'.
Qed.

(** C8: PackageName.Validate returns nil exactly when Namespace and Name are
    both non-empty. Nothing else is checked: whatever the Name (further
    colons, blanks, an at sign) and whatever the Version, a PackageName with
    non-empty Namespace and Name is reported valid. *)
Theorem PackageName_Validate_nil_iff :
  (forall pn : PackageName semver_Version,
     PackageName_Validate pn = None <-> Namespace pn <> "" /\ Name pn <> "") /\
  (forall (ns nm : string) (v : option semver_Version),
     String.eqb ns "" = false -> String.eqb nm "" = false ->
     PackageName_Validate (Build_PackageName ns nm v) = None) /\
  (forall v : option semver_Version,
     PackageName_Validate (Build_PackageName "wasi" "clocks:x y@:z" v) = None).
Proof.
  split; [exact Validate_None|]. split.
  - intros ns nm v Hns Hnm. unfold PackageName_Validate. cbn. now rewrite Hns, Hnm.
  - intros v. reflexivity.
Qed.

(** C7: ParsePackageName returns an error exactly when the parsed namespace
    is empty, the parsed name is empty, or the text after the first [@] is
    refused by the version library; the input [:clocks] is rejected with the
    error "missing package namespace". *)
Theorem ParsePackageName_error_iff :
  (forall s : string,
     snd (parse s) <> None <->
     (Namespace (fst (parse s)) = "" \/ Name (fst (parse s)) = "" \/
      exists name ver : string,
        s = name ++ "@" ++ ver /\ has_byte "@" name = false /\
        snd (NewVersion ver) <> None)) /\
  parse ":clocks" =
    (Build_PackageName "" "clocks" None, Some (errors_New "missing package namespace")).
Proof.
  split; [|reflexivity].
  intros s. destruct (parse_cases s) as [[Hno E] | (name & ver & -> & Hno & E)].
  - rewrite E. destruct (Cut s ":") as [[ns nm] found]. cbn [fst snd].
    rewrite Validate_Some. cbn [Namespace Name]. split; [tauto|].
    intros [H | [H | (name & ver & -> & _ & _)]]; [tauto | tauto |].
    rewrite has_byte_at_app in Hno. discriminate Hno.
  - rewrite E. destruct (Cut name ":") as [[ns nm] found].
    destruct (NewVersion ver) as [v [e|]] eqn:Ev; cbn [fst snd].
    + split; [|discriminate]. intros _. right. right. exists name, ver.
      rewrite Ev. repeat split; [assumption | discriminate].
    + rewrite Validate_Some. cbn [Namespace Name]. split; [tauto|].
      intros [H | [H | (name' & ver' & E' & Hno' & Hv)]]; [tauto | tauto |].
      destruct (at_split_unique _ _ _ _ Hno Hno' E') as [_ <-].
      rewrite Ev in Hv. now contradiction Hv.
Qed.

(** C6, as amended: for every input string containing no [:],
    ParsePackageName yields a PackageName with an empty name, whose namespace
    is the text before the first [@] (the whole input when it has none), and
    rejects the input with an error. *)
Theorem ParsePackageName_without_colon (s : string) :
  has_byte ":" s = false ->
  Name (fst (parse s)) = "" /\
  (exists (ver : string) (hasVer : bool),
     splits_at_first "@" s (Namespace (fst (parse s))) ver hasVer) /\
  snd (parse s) <> None.
Proof.
  intros Hc. destruct (parse_cases s) as [[Hno E] | (name & ver & -> & Hno & E)].
  - rewrite E, (Cut_byte_absent ":" s Hc). cbn [fst snd Name Namespace].
    split; [reflexivity|]. split.
    + exists "", false. cbn. auto.
    + apply Validate_Some. now right.
  - rewrite has_byte_app in Hc. apply orb_false_iff in Hc as [Hc _].
    rewrite E, (Cut_byte_absent ":" name Hc).
    destruct (NewVersion ver) as [v [e|]]; cbn [fst snd Name Namespace].
    + split; [reflexivity|]. split; [|discriminate].
      exists ver, true. cbn. auto.
    + split; [reflexivity|]. split.
      * exists ver, true. cbn. auto.
      * apply Validate_Some. now right.
Qed.

(** C5, as amended: ParsePackageName splits its input on the first [@] for
    an optional version suffix, and splits the text before that [@] on its
    first [:] to obtain namespace and name; when a version suffix is present
    and the version library refuses it, the parse fails with that error. The
    result is that of splitting on the first [:] first whenever no [@] comes
    before the first [:]. *)
Theorem ParsePackageName_splits :
  (forall s : string,
     exists (name ver : string) (hasVer : bool) (ns nm : string) (found : bool),
       splits_at_first "@" s name ver hasVer /\
       splits_at_first ":" name ns nm found /\
       Namespace (fst (parse s)) = ns /\ Name (fst (parse s)) = nm /\
       if hasVer then
         Version (fst (parse s)) = fst (NewVersion ver) /\
         match snd (NewVersion ver) with
         | Some e => snd (parse s) = Some e
         | None => snd (parse s) = PackageName_Validate (fst (parse s))
         end
       else
         Version (fst (parse s)) = None /\
         snd (parse s) = PackageName_Validate (fst (parse s))) /\
  (forall (s ns rest : string) (found : bool),
     splits_at_first ":" s ns rest found -> has_byte "@" ns = false ->
     parse s = parse_colon_first s).
Proof.
  split.
  - intros s. unfold ParsePackageName.
    pose proof (Cut_byte_spec "@" s) as H1.
    destruct (Cut s "@") as [[name ver] hasVer].
    pose proof (Cut_byte_spec ":" name) as H2.
    destruct (Cut name ":") as [[ns nm] found].
    exists name, ver, hasVer, ns, nm, found.
    split; [exact H1|]. split; [exact H2|].
    destruct hasVer.
    + destruct (NewVersion ver) as [v [e|]]; cbn; auto.
    + cbn. auto.
  - intros s ns rest found Hs Hns.
    unfold ParsePackageName, ParsePackageName_colon_first.
    rewrite (splits_at_first_Cut _ _ _ _ _ Hs).
    pose proof (Cut_byte_spec "@" rest) as Hr.
    destruct (Cut rest "@") as [[nm ver] hasVer].
    destruct found; cbn in Hs.
    + destruct Hs as [-> Hc]. destruct hasVer; cbn in Hr.
      * destruct Hr as [-> Hnm].
        assert (Hname : has_byte "@" (ns ++ ":" ++ nm) = false).
        { rewrite has_byte_app. cbn. now rewrite Hns, Hnm. }
        replace (ns ++ String ":" (nm ++ String "@" ver))
          with ((ns ++ ":" ++ nm) ++ String "@" ver)
          by (cbn [append]; rewrite <- append_assoc3; reflexivity).
        rewrite (Cut_byte_app "@" _ ver Hname).
        cbn [append]. rewrite (Cut_byte_app ":" ns nm Hc). reflexivity.
      * destruct Hr as (-> & -> & Hrest).
        assert (Hname : has_byte "@" (ns ++ String ":" rest) = false).
        { rewrite has_byte_app. cbn. now rewrite Hns, Hrest. }
        rewrite (Cut_byte_absent "@" _ Hname), (Cut_byte_app ":" ns rest Hc).
        reflexivity.
    + destruct Hs as (-> & -> & Hc).
      rewrite (Cut_byte_absent "@" s Hns), (Cut_byte_absent ":" s Hc).
      cbn in Hr. destruct hasVer; cbn in Hr.
      * destruct Hr as [Hr _]. destruct nm; discriminate Hr.
      * destruct Hr as (-> & -> & _). reflexivity.
Qed.

(** A text in canonical form parses, and the result prints as the text. *)
Lemma parse_canonical (s : string) :
  canonical NewVersion Version_String s ->
  exists p, parse s = (p, None) /\ to_string p = s.
Proof.
  intros (ns & nm & Hns & Hnm & Hc & Hans & Hanm & [-> | (v & Hv & ->)]).
  - exists (Build_PackageName ns nm None). split; [|reflexivity].
    rewrite parse_without_version
      by (rewrite has_byte_app; cbn; now rewrite Hans, Hanm).
    cbn [append]. rewrite (Cut_byte_app ":" ns nm Hc).
    f_equal. apply Validate_None. now split.
  - exists (Build_PackageName ns nm (Some v)). split; [|reflexivity].
    replace (ns ++ ":" ++ nm ++ "@" ++ Version_String v)
      with ((ns ++ ":" ++ nm) ++ "@" ++ Version_String v)
      by (rewrite <- !append_assoc3; reflexivity).
    rewrite parse_with_version
      by (rewrite has_byte_app; cbn; now rewrite Hans, Hanm).
    cbn [append]. rewrite (Cut_byte_app ":" ns nm Hc), Hv.
    f_equal. apply Validate_None. now split.
Qed.

(** What a successful parse returns is read back from its printed form, when
    the version library reads the printed version back. *)
Lemma parse_to_string (s : string) (p : PackageName semver_Version) :
  parse s = (p, None) ->
  (forall v, Version p = Some v -> NewVersion (Version_String v) = (Some v, None)) ->
  parse (to_string p) = (p, None).
Proof.
  intros E Hv.
  assert (Hcan : canonical NewVersion Version_String (to_string p) /\
                 forall q, parse (to_string p) = (q, None) -> q = p).
  { destruct (parse_cases s) as [[Hno E'] | (name & ver & -> & Hno & E')];
      rewrite E' in E; clear E'.
    - pose proof (Cut_byte_spec ":" s) as Hs.
      destruct (Cut s ":") as [[ns nm] found]. inversion E as [[Hp Hval]].
      apply Validate_None in Hval. cbn in Hval. destruct Hval as [Hns Hnm].
      destruct found; cbn in Hs; [|destruct Hs as (_ & -> & _); now contradiction Hnm].
      destruct Hs as [-> Hc]. rewrite has_byte_app in Hno. cbn in Hno.
      apply orb_false_iff in Hno as [Hans Hanm].
      split.
      + exists ns, nm. cbn. repeat split; auto.
      + cbn. intros q Hq.
        rewrite parse_without_version in Hq
          by (rewrite has_byte_app; cbn; now rewrite Hans, Hanm).
        cbn [append] in Hq. rewrite (Cut_byte_app ":" ns nm Hc) in Hq.
        now inversion Hq.
    - pose proof (Cut_byte_spec ":" name) as Hs.
      destruct (Cut name ":") as [[ns nm] found].
      destruct (NewVersion ver) as [v [e|]] eqn:Ever; [discriminate E|].
      inversion E as [[Hp Hval]].
      apply Validate_None in Hval. cbn in Hval. destruct Hval as [Hns Hnm].
      destruct found; cbn in Hs; [|destruct Hs as (_ & -> & _); now contradiction Hnm].
      destruct Hs as [-> Hc]. rewrite has_byte_app in Hno. cbn in Hno.
      apply orb_false_iff in Hno as [Hans Hanm].
      rewrite <- Hp in Hv. cbn in Hv.
      destruct v as [v|]; cbn.
      + specialize (Hv v eq_refl). split.
        * exists ns, nm. repeat split; auto. right. exists v. now split.
        * intros q Hq.
          replace (ns ++ String ":" (nm ++ String "@" (Version_String v)))
            with ((ns ++ ":" ++ nm) ++ "@" ++ Version_String v) in Hq
            by (cbn [append]; rewrite <- !append_assoc3; reflexivity).
          rewrite parse_with_version in Hq
            by (rewrite has_byte_app; cbn; now rewrite Hans, Hanm).
          cbn [append] in Hq. rewrite (Cut_byte_app ":" ns nm Hc), Hv in Hq.
          now inversion Hq.
      + split.
        * exists ns, nm. cbn. repeat split; auto.
        * intros q Hq.
          rewrite parse_without_version in Hq
            by (rewrite has_byte_app; cbn; now rewrite Hans, Hanm).
          cbn [append] in Hq. rewrite (Cut_byte_app ":" ns nm Hc) in Hq.
          now inversion Hq. }
  destruct Hcan as [Hcan Huniq].
  destruct (parse_canonical _ Hcan) as (q & Hq & _).
  rewrite Hq. f_equal. now apply Huniq.
Qed.

(** A version in a parsed PackageName is one the version library returned. *)
Lemma parse_version_origin (s : string) (p : PackageName semver_Version)
    (e : option error) (v : semver_Version) :
  parse s = (p, e) -> Version p = Some v ->
  exists ver : string,
    fst (NewVersion ver) = Some v /\ (e = None -> snd (NewVersion ver) = None).
Proof.
  intros E Hv. unfold ParsePackageName in E.
  destruct (Cut s "@") as [[name ver] hasVer].
  destruct (Cut name ":") as [[ns nm] found].
  destruct hasVer.
  - destruct (NewVersion ver) as [v' [e'|]] eqn:Ev; inversion E; subst; cbn in Hv;
      exists ver; rewrite Ev; cbn; split; auto; discriminate.
  - inversion E; subst. discriminate Hv.
Qed.

(** C1: round trip of package names. (a) For every PackageName [p] obtained
    from a successful ParsePackageName, if the version library reads the text
    it prints for the version of [p] back as that version, then
    ParsePackageName (p.String()) succeeds and returns [p]. (b) For every
    string [s] in canonical form, ParsePackageName s succeeds and the String()
    of its result is [s]. (c) Scenario B: when the version library reads
    [1.0.0] as a version that it prints as [1.0.0], the input
    [wasi:clocks@1.0.0] parses to namespace [wasi], name [clocks] and that
    version, and is printed back identically. *)
Theorem ParsePackageName_round_trip :
  (forall (s : string) (p : PackageName semver_Version),
     parse s = (p, None) ->
     (forall v, Version p = Some v -> NewVersion (Version_String v) = (Some v, None)) ->
     parse (to_string p) = (p, None)) /\
  (forall s : string,
     canonical NewVersion Version_String s ->
     exists p, parse s = (p, None) /\ to_string p = s) /\
  (forall v : semver_Version,
     NewVersion "1.0.0" = (Some v, None) -> Version_String v = "1.0.0" ->
     parse "wasi:clocks@1.0.0" = (Build_PackageName "wasi" "clocks" (Some v), None) /\
     to_string (Build_PackageName "wasi" "clocks" (Some v)) = "wasi:clocks@1.0.0").
Proof.
  split; [exact parse_to_string | split; [exact parse_canonical|]].
  intros v Hv Hs. split.
  - change "wasi:clocks@1.0.0" with ("wasi:clocks" ++ "@" ++ "1.0.0").
    rewrite parse_with_version by reflexivity. cbn. now rewrite Hv.
  - cbn. now rewrite Hs.
Qed.

(** *** Further properties of ParsePackageName and PackageName.String *)

Lemma append_nil_r (s : string) : s ++ "" = s.
Proof. induction s as [|c s IH]; cbn; [reflexivity | now rewrite IH]. Qed.

(** The two parts around the first [:] of a text without [@]. *)
Lemma Cut_colon_fields (name : string) :
  has_byte "@" name = false ->
  let '(ns, nm, _) := Cut name ":" in
  has_byte ":" ns = false /\ has_byte "@" ns = false /\ has_byte "@" nm = false.
Proof.
  intros Hat. pose proof (Cut_byte_spec ":" name) as Hs.
  destruct (Cut name ":") as [[ns nm] found]. destruct found; cbn in Hs.
  - destruct Hs as [-> Hc]. rewrite has_byte_app in Hat. cbn in Hat.
    apply orb_false_iff in Hat as [Hns Hnm]. auto.
  - destruct Hs as (-> & -> & Hc). auto.
Qed.

Lemma parse_fields (s : string) :
  has_byte ":" (Namespace (fst (parse s))) = false /\
  has_byte "@" (Namespace (fst (parse s))) = false /\
  has_byte "@" (Name (fst (parse s))) = false.
Proof.
  destruct (parse_cases s) as [[Hno E] | (name & ver & -> & Hno & E)]; rewrite E.
  - pose proof (Cut_colon_fields s Hno) as H.
    destruct (Cut s ":") as [[ns nm] found]. exact H.
  - pose proof (Cut_colon_fields name Hno) as H.
    destruct (Cut name ":") as [[ns nm] found].
    destruct (NewVersion ver) as [v [e|]]; exact H.
Qed.

(** What ParsePackageName returns without an error passes Validate. *)
Lemma parse_valid (s : string) (p : PackageName semver_Version) :
  parse s = (p, None) -> Namespace p <> "" /\ Name p <> "".
Proof.
  intros E. apply Validate_None. unfold ParsePackageName in E.
  destruct (Cut s "@") as [[name ver] hasVer].
  destruct (Cut name ":") as [[ns nm] found].
  destruct hasVer.
  - destruct (NewVersion ver) as [v [e|]]; [discriminate E|]. now inversion E.
  - now inversion E.
Qed.

Lemma well_formed_parse (pn : PackageName semver_Version) :
  well_formed NewVersion Version_String pn -> parse (to_string pn) = (pn, None).
Proof.
  destruct pn as [ns nm v]. unfold well_formed, PackageName_String.
  cbn [Namespace Name Version].
  intros (Hns & Hnm & Hc & Hans & Hanm & Hv).
  assert (Hname : has_byte "@" (ns ++ ":" ++ nm) = false)
    by (rewrite has_byte_app; cbn; now rewrite Hans, Hanm).
  assert (Hval : PackageName_Validate (Build_PackageName ns nm v) = None)
    by (apply Validate_None; now split).
  destruct v as [v|].
  - replace (ns ++ ":" ++ nm ++ "@" ++ Version_String v)
      with ((ns ++ ":" ++ nm) ++ "@" ++ Version_String v)
      by (rewrite <- !append_assoc3; reflexivity).
    rewrite (parse_with_version _ _ Hname).
    cbn [append]. rewrite (Cut_byte_app ":" ns nm Hc), Hv. now rewrite Hval.
  - rewrite (parse_without_version _ Hname).
    cbn [append]. rewrite (Cut_byte_app ":" ns nm Hc). now rewrite Hval.
Qed.

(** X3: the inputs ParsePackageName accepts. It returns a nil error exactly
    for the texts [ns:nm] and [ns:nm@ver] in which [ns] and [nm] are not
    empty, [ns] holds neither [:] nor [@], [nm] holds no [@] (it may hold
    further colons), and the version library raises no error on [ver]. *)
Theorem ParsePackageName_accepts (s : string) :
  snd (parse s) = None <->
  exists ns nm : string,
    ns <> "" /\ nm <> "" /\ has_byte ":" ns = false /\
    has_byte "@" ns = false /\ has_byte "@" nm = false /\
    (s = ns ++ ":" ++ nm \/
     exists ver : string,
       s = ns ++ ":" ++ nm ++ "@" ++ ver /\ snd (NewVersion ver) = None).
Proof.
  split.
  - intros Herr. destruct (parse s) as [p e] eqn:E. cbn in Herr. subst e.
    destruct (parse_valid _ _ E) as [Hns Hnm].
    pose proof (parse_fields s) as Hf. rewrite E in Hf. cbn [fst] in Hf.
    destruct Hf as (Hc & Hans & Hanm).
    exists (Namespace p), (Name p). repeat (split; [assumption|]).
    destruct (parse_cases s) as [[Hno E'] | (name & ver & -> & Hno & E')];
      rewrite E' in E; clear E'.
    + left. pose proof (Cut_byte_spec ":" s) as Hs.
      destruct (Cut s ":") as [[ns nm] found]. inversion E as [[Hp Hval]].
      rewrite <- Hp in Hnm. cbn in Hnm |- *.
      destruct found; cbn in Hs; [now destruct Hs|].
      destruct Hs as (_ & -> & _). now contradiction Hnm.
    + right. exists ver. pose proof (Cut_byte_spec ":" name) as Hs.
      destruct (Cut name ":") as [[ns nm] found].
      destruct (NewVersion ver) as [v [e|]]; [discriminate E|].
      inversion E as [[Hp Hval]]. rewrite <- Hp in Hnm. cbn in Hnm |- *.
      split; [|reflexivity].
      destruct found; cbn in Hs.
      * destruct Hs as [-> _]. cbn [append]. now rewrite <- !append_assoc3.
      * destruct Hs as (_ & -> & _). now contradiction Hnm.
  - intros (ns & nm & Hns & Hnm & Hc & Hans & Hanm & [-> | (ver & -> & Hv)]).
    + rewrite parse_without_version
        by (rewrite has_byte_app; cbn; now rewrite Hans, Hanm).
      cbn [append]. rewrite (Cut_byte_app ":" ns nm Hc). cbn [snd].
      apply Validate_None. now split.
    + replace (ns ++ ":" ++ nm ++ "@" ++ ver) with ((ns ++ ":" ++ nm) ++ "@" ++ ver)
        by (rewrite <- !append_assoc3; reflexivity).
      rewrite parse_with_version
        by (rewrite has_byte_app; cbn; now rewrite Hans, Hanm).
      cbn [append]. rewrite (Cut_byte_app ":" ns nm Hc).
      destruct (NewVersion ver) as [v e]. cbn in Hv. subst e. cbn [snd].
      apply Validate_None. now split.
Qed.

(** X4: whatever the input, and whether or not an error is returned, the
    Namespace that ParsePackageName yields holds neither [:] nor [@], and the
    Name holds no [@]. *)
Theorem ParsePackageName_fields_hold_no_separator (s : string) :
  has_byte ":" (Namespace (fst (parse s))) = false /\
  has_byte "@" (Namespace (fst (parse s))) = false /\
  has_byte "@" (Name (fst (parse s))) = false.
Proof. exact (parse_fields s). Qed.

(** X5: for a successful parse, String() gives the input back up to the
    version text: an input without [@] is returned unchanged, and for an input
    [name@ver] the result is [name], followed by [@] and the version as the
    version library prints it when the PackageName has one. *)
Theorem PackageName_String_of_parsed (s : string) (p : PackageName semver_Version) :
  parse s = (p, None) ->
  (has_byte "@" s = false -> to_string p = s) /\
  (forall name ver : string,
     s = name ++ "@" ++ ver -> has_byte "@" name = false ->
     to_string p =
     name ++ match Version p with
             | Some v => "@" ++ Version_String v
             | None => ""
             end).
Proof.
  intros E. destruct (parse_valid _ _ E) as [_ Hnm]. split.
  - intros Hno. rewrite (parse_without_version _ Hno) in E.
    pose proof (Cut_byte_spec ":" s) as Hs.
    destruct (Cut s ":") as [[ns nm] found]. inversion E as [[Hp Hval]].
    rewrite <- Hp in Hnm. cbn in Hnm. unfold PackageName_String. cbn.
    destruct found; cbn in Hs; [now destruct Hs as [-> _]|].
    destruct Hs as (_ & -> & _). now contradiction Hnm.
  - intros name ver -> Hno. rewrite (parse_with_version _ _ Hno) in E.
    pose proof (Cut_byte_spec ":" name) as Hs.
    destruct (Cut name ":") as [[ns nm] found].
    destruct (NewVersion ver) as [v [e|]]; [discriminate E|].
    inversion E as [[Hp Hval]]. rewrite <- Hp in Hnm. cbn in Hnm.
    unfold PackageName_String. cbn.
    destruct found; cbn in Hs.
    + destruct Hs as [-> _]. destruct v as [v|].
      * cbn [append]. now rewrite <- !append_assoc3.
      * now rewrite append_nil_r.
    + destruct Hs as (_ & -> & _). now contradiction Hnm.
Qed.

(** X6: the PackageName values that survive String() followed by
    ParsePackageName are exactly the well-formed ones: parsing pn.String()
    returns [pn] without error if and only if Namespace and Name are not
    empty, the Namespace holds neither [:] nor [@], the Name holds no [@], and
    the Version, when not nil, is read back by the version library from its
    printed text. *)
Theorem parse_String_fixed_points (pn : PackageName semver_Version) :
  parse (to_string pn) = (pn, None) <-> well_formed NewVersion Version_String pn.
Proof.
  split; [|apply well_formed_parse].
  intros E. destruct (parse_valid _ _ E) as [Hns Hnm].
  pose proof (parse_fields (to_string pn)) as Hf. rewrite E in Hf. cbn [fst] in Hf.
  destruct Hf as (Hc & Hans & Hanm).
  unfold well_formed. repeat (split; [assumption|]).
  destruct pn as [ns nm [v|]]; [|exact I].
  cbn [Namespace Name Version] in *.
  unfold PackageName_String in E. cbn [Namespace Name Version] in E.
  replace (ns ++ ":" ++ nm ++ "@" ++ Version_String v)
    with ((ns ++ ":" ++ nm) ++ "@" ++ Version_String v) in E
    by (rewrite <- !append_assoc3; reflexivity).
  rewrite parse_with_version in E
    by (rewrite has_byte_app; cbn; now rewrite Hans, Hanm).
  destruct (Cut (ns ++ ":" ++ nm) ":") as [[ns' nm'] found].
  destruct (NewVersion (Version_String v)) as [v' [e|]]; [discriminate E|].
  inversion E. reflexivity.
Qed.

(** X7: String() is injective on well-formed PackageName values: two of them
    with the same printed form are equal. *)
Theorem PackageName_String_injective (p q : PackageName semver_Version) :
  well_formed NewVersion Version_String p ->
  well_formed NewVersion Version_String q ->
  to_string p = to_string q -> p = q.
Proof.
  intros Hp Hq E.
  pose proof (well_formed_parse p Hp) as Pp.
  pose proof (well_formed_parse q Hq) as Pq.
  rewrite E, Pq in Pp. now inversion Pp.
Qed.

Lemma Cut_before_empty (c : ascii) (s : string) :
  fst (fst (Cut s (String c EmptyString))) = "" <-> empty_or_begins_with c s.
Proof.
  unfold empty_or_begins_with. destruct s as [|x s].
  - cbn. split; auto.
  - rewrite Cut_byte_cons. destruct (Ascii.eqb_spec x c) as [->|Hx].
    + cbn. split; [right; now exists s | reflexivity].
    + destruct (Cut s (String c EmptyString)) as [[a b] [|]]; cbn;
        (split; [discriminate | intros [H | [r H]]; [discriminate H | congruence]]).
Qed.

Lemma Cut_at_before_begins_with_colon (s : string) :
  empty_or_begins_with ":" (fst (fst (Cut s "@"))) <->
  s = "" \/ exists rest : string, s = String ":" rest \/ s = String "@" rest.
Proof.
  unfold empty_or_begins_with. destruct s as [|x s].
  - cbn. split; auto.
  - rewrite Cut_byte_cons. destruct (Ascii.eqb_spec x "@") as [->|Hx].
    + cbn. split; [intros _; right; exists s; now right | auto].
    + destruct (Cut s "@") as [[a b] [|]]; cbn.
      * split.
        -- intros [H | [r H]]; [discriminate H|]. injection H as -> _.
           right. exists s. now left.
        -- intros [H | [r [H | H]]]; [discriminate H | | congruence].
           injection H as -> _. right. now exists a.
      * split.
        -- intros [H | [r H]]; [discriminate H|]. injection H as -> _.
           right. exists s. now left.
        -- intros [H | [r [H | H]]]; [discriminate H | | congruence].
           injection H as -> _. right. now exists s.
Qed.

Lemma parse_Namespace (s : string) :
  Namespace (fst (parse s)) = fst (fst (Cut (fst (fst (Cut s "@"))) ":")).
Proof.
  unfold ParsePackageName.
  destruct (Cut s "@") as [[name ver] hasVer]. cbn [fst].
  destruct (Cut name ":") as [[ns nm] found]. cbn [fst].
  destruct hasVer; [destruct (NewVersion ver) as [v [e|]]|]; reflexivity.
Qed.

(** X8: the Namespace that ParsePackageName yields is empty exactly when the
    input is empty or begins with [:] or [@]. For such an input the error is
    determined: without [@] in the input it is "missing package namespace";
    with the text [ver] after the first [@] it is the error of the version
    library when the library refuses [ver], which comes before validation,
    and "missing package namespace" when it does not, also when the Name is
    empty too. *)
Theorem ParsePackageName_empty_namespace (s : string) :
  (Namespace (fst (parse s)) = "" <->
   s = "" \/ exists rest : string, s = String ":" rest \/ s = String "@" rest) /\
  (Namespace (fst (parse s)) = "" ->
   (has_byte "@" s = false ->
    snd (parse s) = Some (errors_New "missing package namespace")) /\
   (forall name ver : string,
      s = name ++ "@" ++ ver -> has_byte "@" name = false ->
      snd (parse s) =
      match snd (NewVersion ver) with
      | Some e => Some e
      | None => Some (errors_New "missing package namespace")
      end)).
Proof.
  split.
  - rewrite parse_Namespace, Cut_before_empty. apply Cut_at_before_begins_with_colon.
  - intros Hns. split.
    + intros Hno. rewrite (parse_without_version _ Hno) in Hns |- *.
      destruct (Cut s ":") as [[ns nm] found]. cbn in Hns |- *. now subst ns.
    + intros name ver -> Hno. rewrite (parse_with_version _ _ Hno) in Hns |- *.
      destruct (Cut name ":") as [[ns nm] found].
      destruct (NewVersion ver) as [v [e|]]; cbn in Hns |- *; [reflexivity|].
      now subst ns.
Qed.

End PackageName_theory.

(** ** Primitive types and type definitions *)

Lemma TypeName_primitive_names :
  map TypeName [Bool; S8; U8; S16; U16; S32; U32; S64; U64; Float32; Float64; Char; String_]
  = primitive_names.
Proof. reflexivity. Qed.

Ltac name_case s lit :=
  destruct (String.eqb_spec s lit) as [->|?];
  [ cbn; split; [ split; [ intros _; cbn; tauto | reflexivity ]
                | split; [ intros _; eexists; split; reflexivity
                         | split; [ intros t [= <-]; split; reflexivity
                                  | intros H; exfalso; apply H; cbn; tauto ] ] ]
  | ].

(** C3: ParseType succeeds exactly on the thirteen canonical primitive names
    (bool, s8, u8, s16, u16, s32, u32, s64, u64, float32, float64, char,
    string): on each of them it returns a Type and a nil error, and the
    TypeName() of that Type is the input; on every other string it returns no
    Type and the error fmt.Errorf("unknown type %q", s), whose operand is the
    unrecognized token. *)
Theorem ParseType_exactly_primitives :
  length primitive_names = 13 /\ NoDup primitive_names /\
  forall s : string,
    (snd (ParseType s) = None <-> In s primitive_names) /\
    (In s primitive_names ->
     exists t : Type_, ParseType s = (Some t, None) /\ TypeName t = s) /\
    (forall t : Type_, fst (ParseType s) = Some t ->
                       TypeName t = s /\ snd (ParseType s) = None) /\
    (~ In s primitive_names ->
     ParseType s = (None, Some (fmt_Errorf "unknown type %q" s))).
Proof.
  split; [reflexivity|]. split.
  - unfold primitive_names.
    repeat (constructor; [cbn; intuition discriminate|]). constructor.
  - intros s. unfold ParseType.
    name_case s "bool". name_case s "s8". name_case s "u8". name_case s "s16".
    name_case s "u16". name_case s "s32". name_case s "u32". name_case s "s64".
    name_case s "u64". name_case s "float32". name_case s "float64".
    name_case s "char". name_case s "string".
    cbn [fst snd]. split; [split|split; [|split]].
    + discriminate.
    + intros H. exfalso. cbn in H. intuition congruence.
    + intros H. exfalso. cbn in H. intuition congruence.
    + discriminate.
    + reflexivity.
Qed.

(** C10: TypeDef.TypeName returns the string that Name points to when Name is
    not nil, and the empty string when Name is nil; it is defined on every
    TypeDef, the anonymous ones included. *)
Theorem TypeDef_TypeName_spec :
  forall t : TypeDef,
    match TypeDef_Name t with
    | Some name => TypeDef_TypeName t = name
    | None => TypeDef_TypeName t = ""
    end.
Proof.
  intros [[name|] k o d]; reflexivity.
Qed.

Lemma ParseType_returns_primitive (s : string) (t : Type_) (e : option error) :
  ParseType s = (Some t, e) -> is_primitive t = true.
Proof.
  unfold ParseType.
  repeat match goal with
         | |- context [String.eqb s ?lit] => destruct (String.eqb s lit)
         end; intros [= <- _]; reflexivity.
Qed.

(** X2: ParseType reads back the TypeName() of a Type exactly when the Type is
    one of the thirteen primitives. For a [*TypeDef], whatever its name (also
    the name of a primitive), ParseType(t.TypeName()) never returns [t]. *)
Theorem ParseType_TypeName (t : Type_) :
  ParseType (TypeName t) = (Some t, None) <-> is_primitive t = true.
Proof.
  split.
  - apply ParseType_returns_primitive.
  - destruct t; try reflexivity. discriminate.
Qed.

(** X14: _primitive[T].TypeName gives the thirteen types of the constraint
    thirteen different names, none of them the fall-through "<undefined>",
    and each of them a name that ParseType accepts. *)
Theorem _primitive_TypeName_distinct :
  (forall T U : Primitive, _primitive_TypeName T = _primitive_TypeName U -> T = U) /\
  (forall T : Primitive,
     String.eqb (_primitive_TypeName T) "<undefined>" = false /\
     In (_primitive_TypeName T) primitive_names /\
     snd (ParseType (_primitive_TypeName T)) = None).
Proof.
  split.
  - intros T U. destruct T, U; cbn; intros H; try reflexivity; discriminate H.
  - intros T. destruct T; cbn; repeat split; tauto.
Qed.

(** ** The wasm-tools adapter *)

Section Load_theory.

Variable Reader : Type.
Variable Resolve : Type.
Variable host : Host Reader Resolve.

(** After the guard, the first thing loadWIT does is look wasm-tools up. *)
Lemma run_wasm_tools_first_event (path : string) (reader : option Reader) :
  exists rest result,
    run_wasm_tools host path reader = (LookPath_called "wasm-tools" :: rest, result).
Proof.
  unfold run_wasm_tools, bind, perform, ret.
  destruct (exec_LookPath host "wasm-tools") as [tool [e|]].
  - eexists _, _. reflexivity.
  - destruct (cmd_Run host tool _ reader) as [[out errtext] [e|]];
      eexists _, _; reflexivity.
Qed.

(** C4, as amended: loadWIT fails with the input-conflict error when both a
    path and a reader are supplied, and returns it before any call to
    exec.LookPath or to the command. When neither is supplied it raises no
    input-conflict error: it looks wasm-tools up, and where the lookup and
    the run succeed it runs wasm-tools with no path argument and a nil
    standard input and returns what DecodeJSON returns. *)
Theorem loadWIT_input_conflict :
  (forall (path : string) (r : Reader),
     path <> "" ->
     loadWIT host path (Some r) =
     ([], (None, Some (errors_New "cannot set both path and reader; provide only one")))) /\
  (exists rest result,
     loadWIT host "" None = (LookPath_called "wasm-tools" :: rest, result)) /\
  (forall (tool out errtext : string),
     exec_LookPath host "wasm-tools" = (tool, None) ->
     cmd_Run host tool wit_args None = (out, errtext, None) ->
     loadWIT host "" None =
     ([LookPath_called "wasm-tools"; Command_run tool wit_args None; DecodeJSON_called out],
      DecodeJSON host out)).
Proof.
  split; [|split].
  - intros path r Hp. unfold loadWIT, both_set.
    apply String.eqb_neq in Hp. rewrite Hp. reflexivity.
  - apply run_wasm_tools_first_event.
  - intros tool out errtext Hl Hr.
    unfold loadWIT, run_wasm_tools, bind, perform, ret. cbn.
    rewrite Hl. fold wit_args. rewrite Hr. reflexivity.
Qed.

(** C9: the exported entry points never take the both-inputs branch. LoadWIT
    calls loadWIT with a nil reader and DecodeWIT calls it with an empty path;
    for both the guard of loadWIT is false, the call is the part of loadWIT
    after the guard, and its first event is the lookup of wasm-tools (the
    conflict branch returns without any event). *)
Theorem exported_entry_points_never_conflict :
  (forall path : string,
     LoadWIT host path = loadWIT host path None /\
     both_set path (@None Reader) = false /\
     LoadWIT host path = run_wasm_tools host path None /\
     exists rest result,
       LoadWIT host path = (LookPath_called "wasm-tools" :: rest, result)) /\
  (forall r : option Reader,
     DecodeWIT host r = loadWIT host "" r /\
     both_set "" r = false /\
     DecodeWIT host r = run_wasm_tools host "" r /\
     exists rest result,
       DecodeWIT host r = (LookPath_called "wasm-tools" :: rest, result)).
Proof.
  split.
  - intros path.
    assert (G : both_set path (@None Reader) = false)
      by (unfold both_set; apply andb_false_r).
    assert (E : LoadWIT host path = run_wasm_tools host path None)
      by (unfold LoadWIT, loadWIT; now rewrite G).
    repeat split; auto. rewrite E. apply run_wasm_tools_first_event.
  - intros r.
    assert (G : both_set "" r = false) by reflexivity.
    assert (E : DecodeWIT host r = run_wasm_tools host "" r) by reflexivity.
    repeat split; auto. rewrite E. apply run_wasm_tools_first_event.
Qed.

(** *** Every outcome of loadWIT *)

Lemma run_wasm_tools_outcome (path : string) (reader : option Reader) :
  run_wasm_tools host path reader =
  let '(tool, err) := exec_LookPath host "wasm-tools" in
  match err with
  | Some e => ([LookPath_called "wasm-tools"], (None, Some e))
  | None =>
    let '(out, errtext, err') := cmd_Run host tool (wasm_tools_args path) reader in
    match err' with
    | Some e =>
      ([LookPath_called "wasm-tools";
        Command_run tool (wasm_tools_args path) reader;
        Stderr_printed errtext], (None, Some e))
    | None =>
      ([LookPath_called "wasm-tools";
        Command_run tool (wasm_tools_args path) reader;
        DecodeJSON_called out], DecodeJSON host out)
    end
  end.
Proof.
  unfold run_wasm_tools, bind, perform, ret.
  replace (if negb (String.eqb path "")
           then (["component"; "wit"; "-j"; "--all-features"] ++ [path])%list
           else ["component"; "wit"; "-j"; "--all-features"])
    with (wasm_tools_args path)
    by (unfold wasm_tools_args, wit_args; now destruct (String.eqb path "")).
  destruct (exec_LookPath host "wasm-tools") as [tool [e|]]; [reflexivity|].
  destruct (cmd_Run host tool (wasm_tools_args path) reader) as [[out errtext] [e|]];
    [reflexivity|].
  cbn. now destruct (DecodeJSON host out).
Qed.

Lemma loadWIT_after_guard (path : string) (reader : option Reader) :
  both_set path reader = false ->
  loadWIT host path reader = run_wasm_tools host path reader.
Proof. intros G. unfold loadWIT. now rewrite G. Qed.

(** X9: when the path and the reader are not both set and wasm-tools is not
    found, loadWIT returns the error of exec.LookPath with a nil Resolve; no
    command is run and DecodeJSON is not called. *)
Theorem loadWIT_tool_not_found (path : string) (reader : option Reader)
    (tool : string) (e : error) :
  both_set path reader = false ->
  exec_LookPath host "wasm-tools" = (tool, Some e) ->
  loadWIT host path reader = ([LookPath_called "wasm-tools"], (None, Some e)).
Proof.
  intros G Hl. rewrite (loadWIT_after_guard _ _ G), run_wasm_tools_outcome, Hl.
  reflexivity.
Qed.

(** X10: when wasm-tools is found and its run fails, loadWIT returns the
    error of cmd.Run with a nil Resolve, after printing to os.Stderr what the
    command wrote to its standard error; DecodeJSON is not called. The
    command is the executable exec.LookPath returned, with the four fixed
    arguments, then the path when it is not empty, and the reader as its
    standard input. *)
Theorem loadWIT_tool_fails (path : string) (reader : option Reader)
    (tool out errtext : string) (e : error) :
  both_set path reader = false ->
  exec_LookPath host "wasm-tools" = (tool, None) ->
  cmd_Run host tool (wasm_tools_args path) reader = (out, errtext, Some e) ->
  loadWIT host path reader =
  ([LookPath_called "wasm-tools";
    Command_run tool (wasm_tools_args path) reader;
    Stderr_printed errtext], (None, Some e)).
Proof.
  intros G Hl Hr.
  rewrite (loadWIT_after_guard _ _ G), run_wasm_tools_outcome, Hl, Hr. reflexivity.
Qed.

(** X11: when wasm-tools is found and its run succeeds, loadWIT returns what
    DecodeJSON returns on the standard output of the command, Resolve and
    error both, and prints nothing to os.Stderr. This holds for a path with
    a nil reader (LoadWIT), for a reader with an empty path (DecodeWIT) and
    for neither. *)
Theorem loadWIT_decodes_tool_output (path : string) (reader : option Reader)
    (tool out errtext : string) :
  both_set path reader = false ->
  exec_LookPath host "wasm-tools" = (tool, None) ->
  cmd_Run host tool (wasm_tools_args path) reader = (out, errtext, None) ->
  loadWIT host path reader =
  ([LookPath_called "wasm-tools";
    Command_run tool (wasm_tools_args path) reader;
    DecodeJSON_called out], DecodeJSON host out).
Proof.
  intros G Hl Hr.
  rewrite (loadWIT_after_guard _ _ G), run_wasm_tools_outcome, Hl, Hr. reflexivity.
Qed.

(** X12: what loadWIT never does, on any host and for any arguments. A
    Resolve that is not nil comes from DecodeJSON on the output of a
    successful run; at most one command is run; a command that is run is the
    executable exec.LookPath returned, with the arguments and the reader of
    the call, and only when path and reader are not both set; and something
    is printed to os.Stderr only when an error and a nil Resolve are
    returned. *)
Theorem loadWIT_never (path : string) (reader : option Reader) :
  (fst (snd (loadWIT host path reader)) <> None ->
   exists tool out errtext : string,
     exec_LookPath host "wasm-tools" = (tool, None) /\
     cmd_Run host tool (wasm_tools_args path) reader = (out, errtext, None) /\
     snd (loadWIT host path reader) = DecodeJSON host out) /\
  length (filter is_Command_run (fst (loadWIT host path reader))) <= 1 /\
  (forall (name : string) (args : list string) (stdin : option Reader),
     In (Command_run name args stdin) (fst (loadWIT host path reader)) ->
     name = fst (exec_LookPath host "wasm-tools") /\
     args = wasm_tools_args path /\ stdin = reader /\
     both_set path reader = false) /\
  (forall text : string,
     In (Stderr_printed text) (fst (loadWIT host path reader)) ->
     fst (snd (loadWIT host path reader)) = None /\
     snd (snd (loadWIT host path reader)) <> None).
Proof.
  unfold loadWIT. destruct (both_set path reader) eqn:G.
  - cbn. split; [intros H; now contradiction H|]. split; [auto|].
    split; [intros name args stdin []|intros text []].
  - rewrite run_wasm_tools_outcome.
    destruct (exec_LookPath host "wasm-tools") as [tool [e|]] eqn:Hl.
    + cbn. split; [intros H; now contradiction H|]. split; [auto|]. split.
      * intros name args stdin [H|[]]. discriminate H.
      * intros text [H|[]]. discriminate H.
    + destruct (cmd_Run host tool (wasm_tools_args path) reader)
        as [[out errtext] [e|]] eqn:Hr; cbn [fst snd].
      * split; [tauto|]. split; [cbn; auto|]. split.
        -- intros name args stdin [H|[H|[H|[]]]]; try discriminate H.
           now inversion H.
        -- intros text _. split; [reflexivity | discriminate].
      * split; [intros _; now exists tool, out, errtext|].
        split; [cbn; auto|]. split.
        -- intros name args stdin [H|[H|[H|[]]]]; try discriminate H.
           now inversion H.
        -- intros text [H|[H|[H|[]]]]; discriminate H.
Qed.

End Load_theory.

(** ** LoadJSON *)

Section LoadJSON_theory.

Variable File : Type.
Variable Resolve : Type.
Variable os_Open : string -> option File * option error.
Variable DecodeJSON_from : option File -> option Resolve * option error.

Abbreviation load_json := (LoadJSON os_Open DecodeJSON_from).

(** X13: LoadJSON either fails to open the file, and then returns the error
    of os.Open with a nil Resolve without calling DecodeJSON or Close; or it
    opens the file, hands it to DecodeJSON, closes it afterwards and returns
    what DecodeJSON returned, also when that is an error. In every run the
    file is closed exactly when it was handed to DecodeJSON, and Close is the
    last call. *)
Theorem LoadJSON_outcomes (path : string) :
  (forall (f : option File) (e : error),
     os_Open path = (f, Some e) ->
     load_json path = ([Open_called path], (None, Some e))) /\
  (forall f : option File,
     os_Open path = (f, None) ->
     load_json path =
     ([Open_called path; DecodeJSON_reads f; Close_called f], DecodeJSON_from f)) /\
  (forall f : option File,
     In (DecodeJSON_reads f) (fst (load_json path)) <->
     In (Close_called f) (fst (load_json path))) /\
  (forall f : option File,
     In (Close_called f) (fst (load_json path)) ->
     last (fst (load_json path)) (Open_called path) = Close_called f /\
     snd (load_json path) = DecodeJSON_from f).
Proof.
  unfold LoadJSON. destruct (os_Open path) as [f0 [e0|]].
  - split; [intros f e [= <- <-]; reflexivity|].
    split; [intros f [=]|]. cbn. split.
    + intros f. split; intros [H|[]]; discriminate H.
    + intros f [H|[]]. discriminate H.
  - split; [intros f e [=]|].
    split; [intros f [= <-]; reflexivity|]. cbn. split.
    + intros f. split.
      * intros [H|[H|[H|[]]]]; try discriminate H. injection H as <-. auto.
      * intros [H|[H|[H|[]]]]; try discriminate H. injection H as <-. auto.
    + intros f [H|[H|[H|[]]]]; try discriminate H. injection H as <-. auto.
Qed.

End LoadJSON_theory.

(** ** The resolution engine *)

Module Resolution_facts.
Import Resolution.

Lemma link_handle_inl done pos i td :
  link_handle done pos i = inl td ->
  nth_error done (Z.to_nat i) = Some td /\ TypeDef_Kind td = Resource.
Proof.
  unfold link_handle. destruct (nth_error done (Z.to_nat i)) as [t|]; [|discriminate].
  destruct (TypeDef_Kind t) eqn:K; try discriminate.
  intros [= <-]. now split.
Qed.

Lemma link_handle_bad done pos i t :
  nth_error done (Z.to_nat i) = Some t -> is_Resource (TypeDef_Kind t) = false ->
  link_handle done pos i = inr (InvalidHandleTarget pos i).
Proof.
  intros Hn Hk. unfold link_handle. rewrite Hn.
  destruct (TypeDef_Kind t); try reflexivity. discriminate Hk.
Qed.

Lemma ParseType_no_links name ty :
  ParseType name = (Some ty, None) -> type_links ty = [].
Proof.
  unfold ParseType.
  repeat match goal with
         | |- context [String.eqb name ?lit] => destruct (String.eqb name lit)
         end; intros [= <-]; reflexivity.
Qed.

Lemma ParseType_Some_None name ty e : ParseType name = (Some ty, e) -> e = None.
Proof.
  unfold ParseType.
  repeat match goal with
         | |- context [String.eqb name ?lit] => destruct (String.eqb name lit)
         end; intros [= <-]; try reflexivity; congruence.
Qed.

Lemma link_type_links done pos t ty :
  link_type done pos t = inl ty -> incl (type_links ty) done.
Proof.
  destruct t as [name|i]; cbn.
  - destruct (ParseType name) as [[ty'|] e] eqn:E; [|discriminate].
    intros [= <-]. pose proof (ParseType_Some_None _ _ _ E) as ->.
    rewrite (ParseType_no_links _ _ E). apply incl_nil_l.
  - destruct (nth_error done (Z.to_nat i)) as [td|] eqn:E; [|discriminate].
    intros [= <-]. cbn. intros x [<-|[]]. eapply nth_error_In, E.
Qed.

Lemma link_optional_links done pos o ty :
  link_optional done pos o = inl ty -> incl (optional_links ty) done.
Proof.
  destruct o as [t|]; cbn.
  - destruct (link_type done pos t) as [ty'|e] eqn:E; [|discriminate].
    intros [= <-]. cbn. eapply link_type_links, E.
  - intros [= <-]. apply incl_nil_l.
Qed.

Lemma map_result_links {A B : Type} (f : A -> result B) (links : B -> list TypeDef)
    (done : list TypeDef) :
  (forall x y, f x = inl y -> incl (links y) done) ->
  forall l ys, map_result f l = inl ys -> incl (flat_map links ys) done.
Proof.
  intros Hf. induction l as [|x l IH]; cbn; intros ys.
  - intros [= <-]. apply incl_nil_l.
  - destruct (f x) as [y|e] eqn:Ex; [|discriminate].
    destruct (map_result f l) as [ys'|e]; [|discriminate].
    intros [= <-]. cbn. apply incl_app; [eapply Hf, Ex | now apply IH].
Qed.

(** Every link of a materialized kind goes to an entity materialized before. *)
Lemma materialize_kind_links done pos k k' :
  materialize_kind done pos k = inl k' -> incl (kind_links k') done.
Proof.
  destruct k; cbn.
  - destruct (map_result _ fields) as [fs|e] eqn:E; [|discriminate].
    intros [= <-]. cbn. revert E. apply map_result_links.
    intros [n t] y. cbn. destruct (link_type done pos t) as [ty|e] eqn:E; [|discriminate].
    intros [= <-]. eapply link_type_links, E.
  - intros [= <-]. apply incl_nil_l.
  - destruct (link_handle done pos i) as [td|e] eqn:E; [|discriminate].
    intros [= <-]. cbn. apply link_handle_inl in E as [E _].
    intros x [<-|[]]. eapply nth_error_In, E.
  - destruct (link_handle done pos i) as [td|e] eqn:E; [|discriminate].
    intros [= <-]. cbn. apply link_handle_inl in E as [E _].
    intros x [<-|[]]. eapply nth_error_In, E.
  - intros [= <-]. apply incl_nil_l.
  - destruct (map_result _ types) as [ts|e] eqn:E; [|discriminate].
    intros [= <-]. cbn. revert E. apply map_result_links.
    intros x y. apply link_type_links.
  - destruct (map_result _ cases) as [cs|e] eqn:E; [|discriminate].
    intros [= <-]. cbn. revert E. apply map_result_links.
    intros [n t] y. cbn. destruct (link_optional done pos t) as [ty|e] eqn:E; [|discriminate].
    intros [= <-]. eapply link_optional_links, E.
  - intros [= <-]. apply incl_nil_l.
  - destruct (link_type done pos t) as [ty|e] eqn:E; [|discriminate].
    intros [= <-]. cbn. eapply link_type_links, E.
  - destruct (link_optional done pos ok) as [ok'|e] eqn:E1; [|discriminate].
    destruct (link_optional done pos err) as [err'|e] eqn:E2; [|discriminate].
    intros [= <-]. cbn. apply incl_app; eapply link_optional_links; eassumption.
  - destruct (link_type done pos t) as [ty|e] eqn:E; [|discriminate].
    intros [= <-]. cbn. eapply link_type_links, E.
  - destruct (link_optional done pos t) as [ty|e] eqn:E; [|discriminate].
    intros [= <-]. cbn. eapply link_optional_links, E.
  - destruct (link_optional done pos element) as [el'|e] eqn:E1; [|discriminate].
    destruct (link_optional done pos end_) as [end'|e] eqn:E2; [|discriminate].
    intros [= <-]. cbn. apply incl_app; eapply link_optional_links; eassumption.
  - destruct (link_type done pos t) as [ty|e] eqn:E; [|discriminate].
    intros [= <-]. cbn. eapply link_type_links, E.
Qed.

Ltac kind_cases k :=
  destruct k; cbn;
  repeat match goal with
         | |- context [match ?x with inl _ => _ | inr _ => _ end] =>
           let E := fresh "E" in destruct x eqn:E; cbn
         end.

(** A materialized kind is a handle exactly when the raw kind is, and its
    target is the entity at the raw index, of Kind Resource. *)
Lemma materialize_kind_handle done pos k k' :
  materialize_kind done pos k = inl k' ->
  match raw_handle_target k with
  | Some i => exists t, handle_target k' = Some t /\
                        nth_error done (Z.to_nat i) = Some t /\
                        TypeDef_Kind t = Resource
  | None => handle_target k' = None
  end.
Proof.
  kind_cases k; intros [= <-]; cbn; try reflexivity;
    match goal with
    | E : link_handle _ _ _ = inl ?t |- _ =>
      apply link_handle_inl in E as [E1 E2]; exists t; auto
    end.
Qed.

Lemma materialize_kind_resource done pos k k' :
  materialize_kind done pos k = inl k' -> is_Resource k' = is_Raw_resource k.
Proof.
  kind_cases k; intros [= <-]; reflexivity.
Qed.

Lemma materialize_typedef_kind done r td :
  materialize_typedef done r = inl td ->
  materialize_kind done (length done) (raw_kind r) = inl (TypeDef_Kind td).
Proof.
  unfold materialize_typedef.
  destruct (materialize_kind done (length done) (raw_kind r)) as [k|e]; [|discriminate].
  now intros [= <-].
Qed.

(** A handle whose target is there and is no Resource stops the
    materialization of its entity with InvalidHandleTarget. *)
Lemma materialize_typedef_bad_handle done r i t :
  raw_handle_target (raw_kind r) = Some i ->
  nth_error done (Z.to_nat i) = Some t -> is_Resource (TypeDef_Kind t) = false ->
  materialize_typedef done r = inr (InvalidHandleTarget (length done) i).
Proof.
  intros Hr Hn Hk. unfold materialize_typedef.
  destruct (raw_kind r); try discriminate Hr; injection Hr as ->; cbn;
    now rewrite (link_handle_bad _ _ _ _ Hn Hk).
Qed.

Lemma materialize_materialized rest :
  forall done out,
    materialize done rest = inl out ->
    exists new, out = (done ++ new)%list /\ materialized done rest new.
Proof.
  induction rest as [|r rest IH]; cbn; intros done out.
  - intros [= <-]. exists []. split; [now rewrite app_nil_r | constructor].
  - destruct (materialize_typedef done r) as [td|e] eqn:E; [|discriminate].
    intros H. destruct (IH _ _ H) as (new & -> & Hm).
    exists (td :: new). split; [now rewrite <- app_assoc | now constructor].
Qed.

Lemma materialized_nth done rest new :
  materialized done rest new ->
  forall k r, nth_error rest k = Some r ->
    exists td, nth_error new k = Some td /\
               materialize_typedef (done ++ firstn k new) r = inl td.
Proof.
  induction 1 as [done | done r0 rest td new E _ IH]; intros k r Hk.
  - destruct k; discriminate Hk.
  - destruct k as [|k]; cbn in Hk.
    + injection Hk as <-. exists td. cbn. now rewrite app_nil_r.
    + destruct (IH k r Hk) as (td' & Hn & Hm). exists td'. cbn.
      split; [exact Hn|]. now rewrite <- app_assoc in Hm.
Qed.

Lemma materialized_invariant done rest new :
  materialized done rest new ->
  closed_and_handled done -> closed_and_handled (done ++ new).
Proof.
  induction 1 as [done | done r rest td new E _ IH]; intros Hd.
  - now rewrite app_nil_r.
  - replace (done ++ td :: new)%list with ((done ++ [td]) ++ new)%list
      by now rewrite <- app_assoc.
    apply IH. intros x Hx. apply in_app_or in Hx as [Hx | [<- | []]].
    + destruct (Hd x Hx) as [Hl Hh]. split; [|exact Hh].
      intros y Hy. apply in_or_app. left. now apply Hl.
    + apply materialize_typedef_kind in E. split.
      * intros y Hy. apply in_or_app. left.
        now apply (materialize_kind_links _ _ _ _ E).
      * intros t Ht. pose proof (materialize_kind_handle _ _ _ _ E) as Hh.
        destruct (raw_handle_target (raw_kind r)) as [i|].
        -- destruct Hh as (t' & Ht' & _ & Hk). congruence.
        -- congruence.
Qed.

Lemma resolve_inl doc g :
  resolve doc = inl g -> materialized [] (doc_types doc) (TypeDefs g).
Proof.
  unfold resolve.
  destruct (validate_shape doc); [discriminate|].
  destruct (check_bounds doc); [discriminate|].
  destruct (materialize [] (doc_types doc)) as [tds|e] eqn:E; [|discriminate].
  intros [= <-]. cbn. apply materialize_materialized in E as (new & -> & Hm).
  exact Hm.
Qed.

Lemma in_graph_collection g :
  closed_and_handled (TypeDefs g) -> forall td, in_graph g td -> In td (TypeDefs g).
Proof.
  intros Hc td H. induction H as [td H | td td' _ IH Hl]; [exact H|].
  now apply (proj1 (Hc td IH)).
Qed.

Lemma nth_error_firstn_Some {A : Type} (l : list A) n i x :
  nth_error (firstn n l) i = Some x -> nth_error l i = Some x.
Proof.
  revert n i. induction l as [|y l IH]; intros [|n] [|i]; cbn; try discriminate; auto.
  apply IH.
Qed.

(** C2: in every graph that resolution produces, every OwnedHandle and every
    BorrowedHandle, in the collection or reached through links, has as its
    Type a TypeDef of the graph whose Kind is Resource. A document in which a
    handle refers to a type definition that is not a resource is refused with
    an error value and no graph; the entity of such a handle, once its target
    has been materialized, stops with InvalidHandleTarget, as the document of
    scenario E does. *)
Theorem resolved_handles_target_resources :
  (forall (doc : Document) (g : TypeGraph),
     resolve doc = inl g ->
     forall td t : TypeDef,
       in_graph g td -> handle_target (TypeDef_Kind td) = Some t ->
       TypeDef_Kind t = Resource /\ In t (TypeDefs g)) /\
  (forall (doc : Document) (pos : nat) (r target : RawTypeDef) (i : Z),
     nth_error (doc_types doc) pos = Some r ->
     raw_handle_target (raw_kind r) = Some i ->
     nth_error (doc_types doc) (Z.to_nat i) = Some target ->
     is_Raw_resource (raw_kind target) = false ->
     exists e : ResolveError, resolve doc = inr e) /\
  (forall (done : list TypeDef) (r : RawTypeDef) (i : Z) (t : TypeDef),
     raw_handle_target (raw_kind r) = Some i ->
     nth_error done (Z.to_nat i) = Some t ->
     is_Resource (TypeDef_Kind t) = false ->
     materialize_typedef done r = inr (InvalidHandleTarget (length done) i)) /\
  resolve doc_bad_handle = inr (InvalidHandleTarget 1 0).
Proof.
  split; [|split; [|split; [exact materialize_typedef_bad_handle | reflexivity]]].
  - intros doc g Hr td t Hg Ht.
    pose proof (resolve_inl _ _ Hr) as Hm.
    assert (Hc : closed_and_handled (TypeDefs g)).
    { apply (materialized_invariant [] _ _ Hm). intros x []. }
    pose proof (in_graph_collection g Hc td Hg) as Hin.
    destruct (Hc td Hin) as [Hl Hh]. split; [now apply Hh|].
    apply Hl. destruct (TypeDef_Kind td); try discriminate Ht;
      injection Ht as ->; cbn; auto.
  - intros doc pos r target i Hpos Hh Htarget Hraw.
    destruct (resolve doc) as [g|e] eqn:Hr; [exfalso | now exists e].
    pose proof (resolve_inl _ _ Hr) as Hm.
    destruct (materialized_nth _ _ _ Hm pos r Hpos) as (td & _ & Htd).
    destruct (materialized_nth _ _ _ Hm _ target Htarget) as (tt & Hn & Htt).
    apply materialize_typedef_kind in Htd, Htt.
    pose proof (materialize_kind_handle _ _ _ _ Htd) as H1. rewrite Hh in H1.
    destruct H1 as (t & _ & Hnt & Hk). cbn in Hnt.
    apply nth_error_firstn_Some in Hnt. rewrite Hn in Hnt. injection Hnt as <-.
    apply materialize_kind_resource in Htt. rewrite Hraw, Hk in Htt. discriminate Htt.
Qed.

End Resolution_facts.

(** ** The version library instance reads back what it prints *)

Module semver_facts.
Import strings strings_facts semver.

Lemma digits_only_string_of_uint d : digits_only (NilEmpty.string_of_uint d) = true.
Proof. induction d; cbn; auto. Qed.

Lemma digits_only_has_byte (c : ascii) (s : string) :
  ((48 <=? nat_of_ascii c) && (nat_of_ascii c <=? 57))%nat = false ->
  digits_only s = true -> has_byte c s = false.
Proof.
  intros Hc. induction s as [|x s IH]; [reflexivity|].
  cbn [digits_only has_byte].
  intros H. apply andb_true_iff in H as [Hx Hs]. rewrite (IH Hs), orb_false_r.
  destruct (Ascii.eqb_spec x c) as [->|]; [congruence | reflexivity].
Qed.

Lemma format_d_of_N (n : N) :
  format_d (Z.of_N n) = NilEmpty.string_of_uint (N.to_uint n) /\
  N.to_uint n <> Decimal.Nil.
Proof.
  unfold format_d. destruct n as [|p]; cbn.
  - split; [reflexivity | discriminate].
  - pose proof (DecimalPos.Unsigned.to_uint_nonnil p) as Hp.
    split; [|exact Hp]. unfold NilZero.string_of_uint.
    destruct (Pos.to_uint p); [now contradiction Hp | reflexivity ..].
Qed.

Lemma format_d_digits (n : N) : digits_only (format_d (Z.of_N n)) = true.
Proof.
  rewrite (proj1 (format_d_of_N n)). apply digits_only_string_of_uint.
Qed.

Lemma parse_digits_format_d (n : N) : parse_digits (format_d (Z.of_N n)) = Some n.
Proof.
  destruct (format_d_of_N n) as [E Hn]. unfold parse_digits.
  replace (format_d (Z.of_N n)) with (NilZero.string_of_uint (N.to_uint n)).
  - rewrite (NilZero.usu _ Hn). cbn. now rewrite DecimalN.Unsigned.of_to.
  - rewrite E. unfold NilZero.string_of_uint.
    destruct (N.to_uint n); [now contradiction Hn | reflexivity ..].
Qed.

(** %d and ParseInt on the numbers ParseInt returns for unsigned text. *)
Lemma ParseInt_format_d (n : N) :
  (n <? 2 ^ 63)%N = true -> ParseInt (format_d (Z.of_N n)) = Some (Z.of_N n).
Proof.
  intros Hn. pose proof (format_d_digits n) as Hd.
  pose proof (parse_digits_format_d n) as Hp.
  destruct (format_d (Z.of_N n)) as [|c s] eqn:E; [discriminate Hp|].
  unfold ParseInt. cbn in Hd. apply andb_true_iff in Hd as [Hc _].
  destruct (Ascii.eqb_spec c "+") as [->|_]; [discriminate Hc|].
  destruct (Ascii.eqb_spec c "-") as [->|_]; [discriminate Hc|].
  now rewrite Hp, Hn.
Qed.

Lemma ParseInt_unsigned (s : string) (a : Z) :
  has_byte "+" s = false -> has_byte "-" s = false -> ParseInt s = Some a ->
  exists n, a = Z.of_N n /\ (n <? 2 ^ 63)%N = true.
Proof.
  destruct s as [|c s]; [discriminate|]. cbn [has_byte ParseInt].
  intros Hp Hm. apply orb_false_iff in Hp as [Hp _]. apply orb_false_iff in Hm as [Hm _].
  rewrite Hp, Hm.
  destruct (parse_digits (String c s)) as [n|]; [|discriminate].
  destruct (n <? 2 ^ 63)%N eqn:Hn; [|discriminate].
  intros [= <-]. now exists n.
Qed.

Lemma ident_parts_no_plus (started : bool) (s : string) :
  ident_parts started s = true -> has_byte "+" s = false.
Proof.
  revert started. induction s as [|c s IH]; intros started; cbn; [reflexivity|].
  destruct (Ascii.eqb_spec c ".") as [->|_].
  - intros H. apply andb_true_iff in H as [_ H]. cbn. eapply IH, H.
  - intros H. apply andb_true_iff in H as [Hc H]. rewrite (IH _ H), orb_false_r.
    destruct (Ascii.eqb_spec c "+") as [->|]; [discriminate Hc | reflexivity].
Qed.

Lemma validateIdentifier_no_plus (id : string) :
  validateIdentifier id = true -> has_byte "+" id = false.
Proof.
  unfold validateIdentifier. destruct (String.eqb_spec id "") as [->|_]; [reflexivity|].
  cbn. apply ident_parts_no_plus.
Qed.

Lemma append_empty_r (s : string) : s ++ "" = s.
Proof. induction s as [|c s IH]; cbn; [reflexivity | now rewrite IH]. Qed.

Lemma append_assoc (a b c : string) : (a ++ b) ++ c = a ++ b ++ c.
Proof. induction a as [|x a IH]; cbn; [reflexivity | now rewrite IH]. Qed.

Lemma has_byte_dotted (c : ascii) (a b d : string) :
  Ascii.eqb "." c = false ->
  has_byte c a = false -> has_byte c b = false -> has_byte c d = false ->
  has_byte c (a ++ "." ++ b ++ "." ++ d) = false.
Proof.
  intros Hc Ha Hb Hd. cbn [append]. rewrite has_byte_app. cbn [has_byte].
  rewrite has_byte_app. cbn [has_byte]. now rewrite Ha, Hb, Hd, Hc.
Qed.

Lemma has_byte_dotted_inv (c : ascii) (a b d : string) :
  has_byte c (a ++ String "." (b ++ String "." d)) = false ->
  has_byte c a = false /\ has_byte c b = false /\ has_byte c d = false.
Proof.
  rewrite has_byte_app. cbn [has_byte]. rewrite has_byte_app. cbn [has_byte].
  intros H. apply orb_false_iff in H as [Ha H]. apply orb_false_iff in H as [_ H].
  apply orb_false_iff in H as [Hb H]. apply orb_false_iff in H as [_ Hd]. auto.
Qed.

(** The version library instance reads the text it prints for a version it
    has read back as the same version. *)
Lemma NewVersion_Version_String (text : string) (v : Version) :
  NewVersion text = (Some v, None) ->
  NewVersion (Version_String v) = (Some v, None).
Proof.
  unfold NewVersion at 1.
  pose proof (Cut_byte_found "+" text) as F1.
  pose proof (Cut_byte_not_found "+" text) as N1.
  destruct (Cut text "+") as [[t1 meta] f1].
  pose proof (Cut_byte_found "-" t1) as F2.
  pose proof (Cut_byte_not_found "-" t1) as N2.
  destruct (Cut t1 "-") as [[t2 pre] f2].
  pose proof (Cut_byte_found "." t2) as F3.
  destruct (Cut t2 ".") as [[major rest] dot1].
  pose proof (Cut_byte_found "." rest) as F4.
  destruct (Cut rest ".") as [[minor patch] dot2].
  destruct dot1, dot2; cbn [andb negb]; try discriminate.
  destruct (validateIdentifier pre) eqn:Vpre; [|discriminate].
  destruct (validateIdentifier meta) eqn:Vmeta; [|discriminate]. cbn [negb].
  destruct (ParseInt major) as [a|] eqn:Pa; [|discriminate].
  destruct (ParseInt minor) as [b|] eqn:Pb; [|discriminate].
  destruct (ParseInt patch) as [c|] eqn:Pc; [|discriminate].
  intros [= <-].
  (* no sign in the dotted part *)
  assert (Hplus1 : has_byte "+" t1 = false).
  { destruct f1; [now destruct (F1 _ _ eq_refl) | now destruct (N1 _ _ eq_refl) as (-> & _ & ?)]. }
  assert (Hminus2 : has_byte "-" t2 = false).
  { destruct f2; [now destruct (F2 _ _ eq_refl) | now destruct (N2 _ _ eq_refl) as (-> & _ & ?)]. }
  assert (Hplus2 : has_byte "+" t2 = false).
  { destruct f2.
    - destruct (F2 _ _ eq_refl) as [-> _]. rewrite has_byte_app in Hplus1.
      now apply orb_false_iff in Hplus1 as [? _].
    - now destruct (N2 _ _ eq_refl) as (-> & _ & _). }
  destruct (F3 _ _ eq_refl) as [-> Hmajor_dot].
  destruct (F4 _ _ eq_refl) as [-> Hminor_dot].
  apply has_byte_dotted_inv in Hminus2 as (Hm_a & Hm_b & Hm_c).
  apply has_byte_dotted_inv in Hplus2 as (Hp_a & Hp_b & Hp_c).
  destruct (ParseInt_unsigned _ _ Hp_a Hm_a Pa) as (na & -> & Hna).
  destruct (ParseInt_unsigned _ _ Hp_b Hm_b Pb) as (nb & -> & Hnb).
  destruct (ParseInt_unsigned _ _ Hp_c Hm_c Pc) as (nc & -> & Hnc).
  clear F1 N1 F2 N2 F3 F4 Pa Pb Pc Hmajor_dot Hminor_dot Hplus1
        Hm_a Hm_b Hm_c Hp_a Hp_b Hp_c.
  (* the printed text *)
  unfold Version_String. cbn [Major Minor Patch PreRelease Metadata].
  set (A := format_d (Z.of_N na)). set (B := format_d (Z.of_N nb)).
  set (C := format_d (Z.of_N nc)).
  assert (HA : forall x, ((48 <=? nat_of_ascii x) && (nat_of_ascii x <=? 57))%nat = false ->
                         has_byte x A = false)
    by (intros x Hx; apply (digits_only_has_byte x _ Hx), format_d_digits).
  assert (HB : forall x, ((48 <=? nat_of_ascii x) && (nat_of_ascii x <=? 57))%nat = false ->
                         has_byte x B = false)
    by (intros x Hx; apply (digits_only_has_byte x _ Hx), format_d_digits).
  assert (HC : forall x, ((48 <=? nat_of_ascii x) && (nat_of_ascii x <=? 57))%nat = false ->
                         has_byte x C = false)
    by (intros x Hx; apply (digits_only_has_byte x _ Hx), format_d_digits).
  set (Y := A ++ "." ++ B ++ "." ++ C).
  assert (HYp : has_byte "+" Y = false)
    by (apply has_byte_dotted; [reflexivity | apply HA | apply HB | apply HC]; reflexivity).
  assert (HYm : has_byte "-" Y = false)
    by (apply has_byte_dotted; [reflexivity | apply HA | apply HB | apply HC]; reflexivity).
  set (X := Y ++ (if String.eqb pre "" then "" else "-" ++ pre)).
  assert (HXp : has_byte "+" X = false).
  { unfold X. rewrite has_byte_app, HYp. cbn.
    destruct (String.eqb pre ""); [reflexivity|]. cbn.
    now apply validateIdentifier_no_plus. }
  assert (Etext : A ++ "." ++ B ++ "." ++ C
                    ++ (if String.eqb pre "" then "" else "-" ++ pre)
                    ++ (if String.eqb meta "" then "" else "+" ++ meta)
                  = X ++ (if String.eqb meta "" then "" else "+" ++ meta)).
  { unfold X, Y. now rewrite !append_assoc. }
  rewrite Etext. clear Etext.
  assert (Ecut1 : Cut (X ++ (if String.eqb meta "" then "" else "+" ++ meta)) "+"
                  = (X, meta, negb (String.eqb meta ""))).
  { destruct (String.eqb_spec meta "") as [->|Hmeta]; cbn [negb].
    - rewrite append_empty_r. now apply Cut_byte_absent.
    - now apply Cut_byte_app. }
  unfold NewVersion. rewrite Ecut1.
  assert (Ecut2 : Cut X "-" = (Y, pre, negb (String.eqb pre ""))).
  { unfold X. destruct (String.eqb_spec pre "") as [->|Hpre]; cbn [negb].
    - rewrite append_empty_r. now apply Cut_byte_absent.
    - now apply Cut_byte_app. }
  rewrite Ecut2.
  assert (Ecut3 : Cut Y "." = (A, B ++ "." ++ C, true))
    by (apply Cut_byte_app, HA; reflexivity).
  rewrite Ecut3.
  assert (Ecut4 : Cut (B ++ "." ++ C) "." = (B, C, true))
    by (apply Cut_byte_app, HB; reflexivity).
  rewrite Ecut4. cbn [andb negb]. rewrite Vpre, Vmeta. cbn [negb].
  unfold A, B, C. now rewrite !ParseInt_format_d.
Qed.

End semver_facts.

(** ** The statements at concrete inputs *)

Abbreviation parse_semver := (ParsePackageName semver.NewVersion).
Abbreviation print_semver := (PackageName_String semver.Version_String).

(** X1: with the version library instance the round trip needs no assumption:
    every PackageName obtained from a successful ParsePackageName is read
    back from its String(). *)
Theorem ParsePackageName_round_trip_semver (s : string) (p : PackageName semver.Version) :
  parse_semver s = (p, None) -> parse_semver (print_semver p) = (p, None).
Proof.
  intros E. apply (parse_to_string _ _ _ s p E).
  intros v Hv.
  destruct (parse_version_origin _ _ _ _ _ _ E Hv) as (ver & H1 & H2).
  apply (semver_facts.NewVersion_Version_String ver).
  destruct (semver.NewVersion ver) as [v' e']. cbn in H1, H2.
  now rewrite H1, (H2 eq_refl).
Qed.

(** The same at [wasi:clocks@1.0.0]. *)
Lemma ParsePackageName_round_trip_semver_witness :
  parse_semver (print_semver wasi_clocks_1_0_0) = (wasi_clocks_1_0_0, None).
Proof.
  apply (ParsePackageName_round_trip_semver "wasi:clocks@1.0.0"). reflexivity.
Defined.

(** C1 at [wasi:clocks@1.0.0], with the version library instance. *)
Lemma ParsePackageName_round_trip_witness :
  parse_semver (print_semver wasi_clocks_1_0_0) = (wasi_clocks_1_0_0, None) /\
  (exists p, parse_semver "wasi:clocks@1.0.0" = (p, None) /\
             print_semver p = "wasi:clocks@1.0.0") /\
  parse_semver "wasi:clocks@1.0.0" = (wasi_clocks_1_0_0, None) /\
  print_semver wasi_clocks_1_0_0 = "wasi:clocks@1.0.0".
Proof.
  pose proof (ParsePackageName_round_trip semver.Version semver.NewVersion
                semver.Version_String) as (Ha & Hb & Hc).
  split; [|split].
  - apply (Ha "wasi:clocks@1.0.0"); [reflexivity|].
    intros v [= <-]. reflexivity.
  - apply Hb. exists "wasi", "clocks".
    repeat split; try discriminate.
    right. exists (semver.Build_Version 1 0 0 "" ""). split; reflexivity.
  - apply Hc; reflexivity.
Defined.

(** C6, as amended, at [clocks]. *)
Lemma ParsePackageName_without_colon_witness :
  strings.has_byte ":" "clocks" = false /\
  Name (fst (parse_semver "clocks")) = "" /\
  (exists (ver : string) (hasVer : bool),
     splits_at_first "@" "clocks" (Namespace (fst (parse_semver "clocks"))) ver hasVer) /\
  snd (parse_semver "clocks") <> None.
Proof.
  split; [reflexivity|].
  apply (ParsePackageName_without_colon semver.Version semver.NewVersion "clocks").
  reflexivity.
Defined.

(** C6, the claim as stated fails: [clocks] holds no [:], and the namespace
    ParsePackageName yields for it is [clocks], not the empty string; it is
    the name that is empty. *)
Lemma ParsePackageName_without_colon_namespace :
  strings.has_byte ":" "clocks" = false /\
  parse_semver "clocks" =
    (Build_PackageName "clocks" "" None, Some (errors_New "missing package name")) /\
  String.eqb (Namespace (fst (parse_semver "clocks"))) "" = false.
Proof. repeat split. Qed.

(** C5, as amended, at [wasi:clocks@1.0.0], where both orders agree. *)
Lemma ParsePackageName_splits_witness :
  parse_semver "wasi:clocks@1.0.0" =
  ParsePackageName_colon_first semver.NewVersion "wasi:clocks@1.0.0".
Proof.
  apply (proj2 (ParsePackageName_splits semver.Version semver.NewVersion)
               "wasi:clocks@1.0.0" "wasi" "clocks@1.0.0" true).
  - split; reflexivity.
  - reflexivity.
Defined.

(** C5, the claim as stated fails: on [a@b:c] the first [:] comes after the
    [@]. ParsePackageName cuts at the [@] first, takes [a] as the namespace
    and fails on the version text [b:c]; splitting on the first [:] first
    gives the namespace [a@b] and the name [c], and succeeds. *)
Lemma ParsePackageName_at_before_colon :
  parse_semver "a@b:c" =
    (Build_PackageName "a" "" None,
     Some (imported_error "semver" "b:c is not in dotted-tri format")) /\
  ParsePackageName_colon_first semver.NewVersion "a@b:c" =
    (Build_PackageName "a@b" "c" None, None) /\
  splits_at_first ":" "a@b:c" "a@b" "c" true /\
  String.eqb (Namespace (fst (parse_semver "a@b:c"))) "a@b" = false.
Proof. repeat split. Qed.

(** C8 at a name with a further colon. *)
Lemma PackageName_Validate_nil_iff_witness :
  PackageName_Validate (Build_PackageName "wasi" "clocks:more" (@None semver.Version)) = None.
Proof.
  apply (proj1 (proj2 (PackageName_Validate_nil_iff semver.Version))); reflexivity.
Defined.

(** C3 at [u32]. *)
Lemma ParseType_exactly_primitives_witness :
  (exists t : Type_, ParseType "u32" = (Some t, None) /\ TypeName t = "u32") /\
  TypeName U32 = "u32" /\ snd (ParseType "u32") = None.
Proof.
  destruct (proj2 (proj2 ParseType_exactly_primitives) "u32") as (_ & Hin & Hsome & _).
  split.
  - apply Hin. cbn. tauto.
  - apply Hsome. reflexivity.
Defined.

(** C4, as amended, on a host where wasm-tools succeeds. *)
Lemma loadWIT_input_conflict_witness :
  loadWIT host_ok "types.wit" (Some "package a:b;") =
    ([], (None, Some (errors_New "cannot set both path and reader; provide only one"))) /\
  loadWIT host_ok "" None =
    ([LookPath_called "wasm-tools";
      Command_run "/usr/bin/wasm-tools" wit_args None;
      DecodeJSON_called "{}"],
     (Some "{}", None)).
Proof.
  pose proof (loadWIT_input_conflict string string host_ok) as (Hboth & _ & Hneither).
  split.
  - apply Hboth. discriminate.
  - apply (Hneither "/usr/bin/wasm-tools" "{}" ""); reflexivity.
Defined.

(** C4, the claim as stated fails: with neither a path nor a reader, on a
    host where wasm-tools is found and succeeds, loadWIT returns no error at
    all; it has looked wasm-tools up, run it and decoded its output. *)
Lemma loadWIT_neither_supplied :
  loadWIT host_ok "" None =
    ([LookPath_called "wasm-tools";
      Command_run "/usr/bin/wasm-tools" ["component"; "wit"; "-j"; "--all-features"] None;
      DecodeJSON_called "{}"],
     (Some "{}", None)) /\
  snd (snd (loadWIT host_ok "" None)) = None.
Proof. split; reflexivity. Qed.

(** C2 at a document with a handle to a resource and at the document of
    scenario E. *)
Lemma resolved_handles_target_resources_witness :
  (exists g, Resolution.resolve Resolution.doc_handles = inl g /\
     forall td t, Resolution.in_graph g td ->
       Resolution.handle_target (TypeDef_Kind td) = Some t ->
       TypeDef_Kind t = Resource /\ In t (Resolution.TypeDefs g)) /\
  (exists e, Resolution.resolve Resolution.doc_bad_handle = inr e).
Proof.
  pose proof Resolution_facts.resolved_handles_target_resources as (Hok & Hbad & _).
  split.
  - eexists. split; [reflexivity|].
    apply (Hok Resolution.doc_handles). reflexivity.
  - apply (Hbad Resolution.doc_bad_handle 1%nat
             (Resolution.Build_RawTypeDef None (Resolution.Raw_borrow 0) None "")
             (Resolution.Build_RawTypeDef (Some "point")
                (Resolution.Raw_record [("x", Resolution.Raw_primitive "s32")]) None "")
             0%Z); reflexivity.
Defined.

(** X5 at [a:b@01.2.3]: the version library instance reads [01.2.3] as 1.2.3,
    and the printed form is [a:b@1.2.3]. *)
Lemma PackageName_String_of_parsed_witness :
  parse_semver "a:b@01.2.3" =
    (Build_PackageName "a" "b" (Some (semver.Build_Version 1 2 3 "" "")), None) /\
  print_semver (Build_PackageName "a" "b" (Some (semver.Build_Version 1 2 3 "" "")))
  = "a:b@1.2.3".
Proof.
  split; [reflexivity|].
  exact (proj2 (PackageName_String_of_parsed semver.Version semver.NewVersion
                  semver.Version_String "a:b@01.2.3" _ eq_refl)
               "a:b" "01.2.3" eq_refl eq_refl).
Defined.

(** X7 at the package name [wasi:clocks@1.0.0]. *)
Lemma PackageName_String_injective_witness :
  well_formed semver.NewVersion semver.Version_String wasi_clocks_1_0_0 /\
  wasi_clocks_1_0_0 = wasi_clocks_1_0_0.
Proof.
  assert (H : well_formed semver.NewVersion semver.Version_String wasi_clocks_1_0_0)
    by (repeat split; discriminate).
  split; [exact H|].
  exact (PackageName_String_injective semver.Version semver.NewVersion
           semver.Version_String wasi_clocks_1_0_0 wasi_clocks_1_0_0 H H eq_refl).
Defined.

(** X9 on a host without wasm-tools. *)
Lemma loadWIT_tool_not_found_witness :
  loadWIT host_without_tool "types.wit" None =
  ([LookPath_called "wasm-tools"],
   (None, Some (imported_error "exec" "executable file not found in $PATH"))).
Proof.
  apply (loadWIT_tool_not_found string string host_without_tool "types.wit" None "");
    reflexivity.
Defined.

(** X10 on a host where wasm-tools fails, called with a path. *)
Lemma loadWIT_tool_fails_witness :
  loadWIT host_failing_tool "types.wit" None =
  ([LookPath_called "wasm-tools";
    Command_run "/usr/bin/wasm-tools"
      ["component"; "wit"; "-j"; "--all-features"; "types.wit"] None;
    Stderr_printed "error: no such file"],
   (None, Some (imported_error "exec" "exit status 1"))).
Proof.
  apply (loadWIT_tool_fails string string host_failing_tool "types.wit" None
           "/usr/bin/wasm-tools" "" "error: no such file");
    reflexivity.
Defined.

(** X11 on a host where wasm-tools succeeds, called with a reader. *)
Lemma loadWIT_decodes_tool_output_witness :
  loadWIT host_ok "" (Some "package a:b;") =
  ([LookPath_called "wasm-tools";
    Command_run "/usr/bin/wasm-tools"
      ["component"; "wit"; "-j"; "--all-features"] (Some "package a:b;");
    DecodeJSON_called "{}"],
   (Some "{}", None)).
Proof.
  apply (loadWIT_decodes_tool_output string string host_ok "" (Some "package a:b;")
           "/usr/bin/wasm-tools" "{}" "");
    reflexivity.
Defined.

(** X13 on a file system with one file: the file that is there is decoded
    and closed, the one that is not is neither. *)
Lemma LoadJSON_outcomes_witness :
  LoadJSON open_one_file decode_contents "resolve.json" =
    ([Open_called "resolve.json"; DecodeJSON_reads (Some "{}");
      Close_called (Some "{}")], (Some "{}", None)) /\
  LoadJSON open_one_file decode_contents "missing.json" =
    ([Open_called "missing.json"],
     (None, Some (imported_error "os" "no such file or directory"))).
Proof.
  split.
  - apply (proj1 (proj2 (LoadJSON_outcomes string string open_one_file
                           decode_contents "resolve.json"))).
    reflexivity.
  - apply (proj1 (LoadJSON_outcomes string string open_one_file
                    decode_contents "missing.json") None).
    reflexivity.
Defined.

(** X8 at [:clocks], at [@x], where the version library refuses [x], and at
    [@1.0.0], where it does not. *)
Lemma ParsePackageName_empty_namespace_witness :
  snd (parse_semver ":clocks") = Some (errors_New "missing package namespace") /\
  snd (parse_semver "@x") =
    Some (imported_error "semver" "x is not in dotted-tri format") /\
  snd (parse_semver "@1.0.0") = Some (errors_New "missing package namespace").
Proof.
  split; [|split].
  - exact (proj1 (proj2 (ParsePackageName_empty_namespace semver.Version
                           semver.NewVersion ":clocks") eq_refl) eq_refl).
  - exact (proj2 (proj2 (ParsePackageName_empty_namespace semver.Version
                           semver.NewVersion "@x") eq_refl) "" "x" eq_refl eq_refl).
  - exact (proj2 (proj2 (ParsePackageName_empty_namespace semver.Version
                           semver.NewVersion "@1.0.0") eq_refl) "" "1.0.0" eq_refl eq_refl).
Defined.

(** X12 on a host where wasm-tools succeeds: the Resolve returned is what
    DecodeJSON made of the output of the run. *)
Lemma loadWIT_never_witness :
  exists tool out errtext : string,
    exec_LookPath host_ok "wasm-tools" = (tool, None) /\
    cmd_Run host_ok tool (wasm_tools_args "types.wit") None = (out, errtext, None) /\
    snd (loadWIT host_ok "types.wit" None) = DecodeJSON host_ok out.
Proof.
  apply (proj1 (loadWIT_never string string host_ok "types.wit" None)).
  discriminate.
Defined.

(** X14 at the types int32 and uint32. *)
Lemma _primitive_TypeName_distinct_witness :
  String.eqb (_primitive_TypeName go_int32) (_primitive_TypeName go_uint32) = false /\
  go_uint32 = go_uint32.
Proof.
  split; [reflexivity|].
  apply (proj1 _primitive_TypeName_distinct go_uint32 go_uint32). reflexivity.
Defined.
